(** * The agent run event-stream client ([useAgUiChat])

    A shallow embedding of [frontend_web/src/hooks/use-ag-ui-chat.ts]:
    the React hook that subscribes to an AG-UI agent, reduces the
    stream of protocol events into chat state and exposes the tool
    registry and the merged message view.

    React state cells ([useState]) are fields of a record; a state
    updater [setX(f)] is applied to the field at once.  The cells written
    through [useRef] are separate fields, because the source reads them
    ([messageRef.current], [toolsRef.current]) and they are only brought
    up to date by the effect that runs after a render has been committed
    (see [syncRefs]).  Code that can raise a JavaScript exception returns a
    [Result]. *)

From Stdlib Require Import ZArith String.
From stdpp Require Import base option list strings gmap.

Local Open Scope string_scope.
Local Open Scope Z_scope.
Local Open Scope list_scope.
Local Set Warnings "-register-all".

(** ** JavaScript values *)

(** The JSON-like values carried by events: tool-call arguments
    ([Record<string, any>] at its declared type, anything at run time) and
    the agent's state snapshot. *)
Inductive Json : Type :=
| JUndefined
| JNull
| JBool (b : bool)
| JNum (n : Z)
| JStr (s : string)
| JArr (items : list Json)
| JObj (fields : list (string * Json)).

(** JavaScript truthiness, as used by [&& params.toolCallArgs]. *)
Definition truthy (v : Json) : bool :=
  match v with
  | JUndefined | JNull => false
  | JBool b => b
  | JNum n => negb (n =? 0)
  | JStr s => negb (String.eqb s "")
  | JArr _ | JObj _ => true
  end.

(** The outcome of code that may raise an exception. *)
Inductive Result (A : Type) : Type :=
| Ok (a : A)
| Throw (e : string).
Arguments Ok {A} a.
Arguments Throw {A} e.

#[global] Instance Result_ret : MRet Result := fun A a => Ok a.
#[global] Instance Result_bind : MBind Result := fun A B k r =>
  match r with
  | Ok a => k a
  | Throw e => Throw e
  end.

Definition is_ok {A : Type} (r : Result A) : bool :=
  match r with Ok _ => true | Throw _ => false end.

(** The values a callback draws from its surroundings: the results of
    the successive [uuid()] calls and of [new Date()]. *)
Record Ambient : Type := { uuid : nat -> string; now : Z }.

(** ** Messages ([api/chat/types]) *)

Inductive Role : Type := user | assistant | system.

Inductive ToolStatus : Type := EXECUTING | COMPLETE.

Inductive ContentPart : Type :=
| TextPart (text : string)
| ToolInvocationPart (toolName : string) (args : Json) (status : ToolStatus).

(** [MessageResponse = MastraMessageV2 | ErrorMessage]; the custom widget
    message is the value built by [createCustomMessageWidget]. *)
Inductive MessageResponse : Type :=
| ChatMessage (id : string) (role : Role) (createdAt : Z)
    (threadId : option string) (parts : list ContentPart)
| WidgetMessage (id : string) (createdAt : Z) (threadId : string)
    (toolCallName : string) (toolCallArgs : Json)
| ErrorMessage (id : string) (createdAt : Z) (threadId : string)
    (error : string).

(** [isErrorMessage]: [m.type === 'error']. *)
Definition isErrorMessage (m : MessageResponse) : bool :=
  match m with ErrorMessage _ _ _ _ => true | _ => false end.

Definition message_parts (m : MessageResponse) : list ContentPart :=
  match m with ChatMessage _ _ _ _ ps => ps | _ => [] end.

(** The text shown for a message: its text parts, in order. *)
Definition message_text (m : MessageResponse) : string :=
  foldr (fun p acc =>
           match p with TextPart t => t +:+ acc | _ => acc end)
        "" (message_parts m).

(** ** Progress ([types/progress], [types/events]) *)

(** Modelled from the spec: the declaration of [ProgressStep] in
    [types/progress.ts] is missing; the data model gives
    [{label, done: bool, error?: string}]. *)
Record ProgressStep : Type :=
  { label : string; done : bool; error : option string }.

(** [{ ...s, done: true }] *)
Definition mark_done (s : ProgressStep) : ProgressStep :=
  {| label := label s; done := true; error := error s |}.

(** [{ ...s, error: message }] *)
Definition mark_error (msg : string) (s : ProgressStep) : ProgressStep :=
  {| label := label s; done := done s; error := Some msg |}.

(** A custom event is told apart by its [name] only; [value] is read at
    the fields its name promises. *)
Record CustomValue : Type :=
  { v_id : string; v_steps : list ProgressStep; v_step : Z;
    v_message : string }.

Record CustomEvent : Type := { ce_name : string; ce_value : CustomValue }.

Definition isProgressStart (e : CustomEvent) : bool :=
  String.eqb (ce_name e) "progress-start".
Definition isProgressDone (e : CustomEvent) : bool :=
  String.eqb (ce_name e) "progress-done".
Definition isProgressError (e : CustomEvent) : bool :=
  String.eqb (ce_name e) "progress-error".

(** [steps.map((s, i) => step === i ? f(s) : s)]: [step] is a JavaScript
    number, compared with the array index by strict equality. *)
Definition map_step (step : Z) (f : ProgressStep -> ProgressStep)
    (steps : list ProgressStep) : list ProgressStep :=
  imap (fun i s => if decide (step = Z.of_nat i) then f s else s) steps.

(** [state => ({ ...state, [id]: state[id].map(...) })].  When [state[id]]
    is [undefined] the call of [.map] raises a [TypeError]. *)
Definition update_track (id : string) (step : Z)
    (f : ProgressStep -> ProgressStep)
    (st : gmap string (list ProgressStep))
  : Result (gmap string (list ProgressStep)) :=
  match st !! id with
  | None => Throw "TypeError: Cannot read properties of undefined (reading 'map')"
  | Some steps => Ok (<[id := map_step step f steps]> st)
  end.

(** The three branches of [onCustomEvent], as the updater handed to
    [setProgress]; an unrecognised name leaves the mapping alone. *)
Definition progress_updater (e : CustomEvent)
    (st : gmap string (list ProgressStep))
  : Result (gmap string (list ProgressStep)) :=
  let v := ce_value e in
  if isProgressStart e then Ok (<[v_id v := v_steps v]> st)
  else if isProgressDone e then update_track (v_id v) (v_step v) mark_done st
  else if isProgressError e then
    update_track (v_id v) (v_step v) (mark_error (v_message v)) st
  else Ok st.

(** ** Tool registry ([types/tools]) *)

Record ToolSerialized : Type :=
  { name : string; description : string; parameters : Json;
    enabled : option bool }.

(** How a call of a bound [handler] ends, seen from its caller: it
    returns (possibly a promise) or it raises. *)
Inductive Completion : Type := Returned | Raised (e : string).

(** [Pick<Tool, 'handler' | 'render' | 'renderAndWait'>].  The hook only
    tests whether a renderer is bound; a renderer is kept as an opaque
    token. *)
Record ToolHandler : Type :=
  { handler : option (Json -> Completion);
    render : option nat;
    renderAndWait : option nat }.

(** [tool => tool.enabled !== false] *)
Definition is_enabled (t : ToolSerialized) : bool :=
  match enabled t with Some false => false | _ => true end.

(** [Object.values(tools).filter(tool => tool.enabled !== false)].  The
    enumeration order of the object's keys is not modelled. *)
Definition enabled_tools (ts : gmap string ToolSerialized)
  : list ToolSerialized :=
  List.filter is_enabled (map_to_list ts).*2.

(** ** The hook's state *)

(** The five cells that make up the live state of the active chat.
    React compares the members of a dependency list with [Object.is], so
    the identity of the array in [messages] and of the object in [message]
    matters to [useMemo]: [messages_ref] and [message_ref] number the
    arrays and objects the cells have held. *)
Record LiveState : Type :=
  { state : Json;
    messages : list (option MessageResponse);
    message : option MessageResponse;
    progress : gmap string (list ProgressStep);
    runningAgent : bool;
    messages_ref : nat;
    message_ref : nat }.

(** One entry of an agent's subscriber list.  The callbacks of a
    subscription close over the [chatId] of the render that created
    them. *)
Record Subscription : Type :=
  { sub_handle : nat; sub_agent : nat; sub_chatId : string }.

(** One call of [agent.runAgent]. *)
Record RunRequest : Type :=
  { run_agent : nat; run_input : string; run_tools : list ToolSerialized }.

(** What lies outside the hook: the agents made by [createAgent] (one per
    [chatId], numbered), their subscriber lists, the subscriptions that
    were released (a run in flight keeps the subscribers it started with,
    so their callbacks can still be called), the agents whose
    [abortController] was aborted, and a log of the calls that leave the
    hook. *)
Record World : Type :=
  { agent : nat;
    next_agent : nat;
    subscribers : list Subscription;
    released : list Subscription;
    next_handle : nat;
    aborted : list nat;
    refetchChats_calls : nat;
    handler_calls : list (string * Json);
    runs : list RunRequest }.

Record Hook : Type :=
  { chatId : string;
    live : LiveState;
    userInput : string;
    tools : gmap string ToolSerialized;
    initialMessages : list MessageResponse;
    toolHandlersRef : gmap string ToolHandler;
    messageRef : option MessageResponse;
    messagesRef : list (option MessageResponse);
    toolsRef : gmap string ToolSerialized;
    unsubscribeRef : option nat;
    world : World }.

(** *** State setters *)

Definition setState (v : Json) (l : LiveState) : LiveState :=
  {| state := v; messages := messages l; message := message l;
     progress := progress l; runningAgent := runningAgent l;
     messages_ref := messages_ref l; message_ref := message_ref l |}.

(** Every updater of the source builds a new array ([[...state, x]] or
    [[]]). *)
Definition setMessages
    (f : list (option MessageResponse) -> list (option MessageResponse))
    (l : LiveState) : LiveState :=
  {| state := state l; messages := f (messages l); message := message l;
     progress := progress l; runningAgent := runningAgent l;
     messages_ref := S (messages_ref l); message_ref := message_ref l |}.

(** A message handed to [setMessage] is a newly built object; [null] is
    always the same value. *)
Definition setMessage (m : option MessageResponse) (l : LiveState)
  : LiveState :=
  {| state := state l; messages := messages l; message := m;
     progress := progress l; runningAgent := runningAgent l;
     messages_ref := messages_ref l;
     message_ref :=
       match m with
       | Some _ => S (message_ref l)
       | None => message_ref l
       end |}.

Definition setProgress (p : gmap string (list ProgressStep))
    (l : LiveState) : LiveState :=
  {| state := state l; messages := messages l; message := message l;
     progress := p; runningAgent := runningAgent l;
     messages_ref := messages_ref l; message_ref := message_ref l |}.

Definition setRunningAgent (b : bool) (l : LiveState) : LiveState :=
  {| state := state l; messages := messages l; message := message l;
     progress := progress l; runningAgent := b;
     messages_ref := messages_ref l; message_ref := message_ref l |}.

Definition with_live (f : LiveState -> LiveState) (h : Hook) : Hook :=
  {| chatId := chatId h; live := f (live h); userInput := userInput h;
     tools := tools h; initialMessages := initialMessages h;
     toolHandlersRef := toolHandlersRef h; messageRef := messageRef h;
     messagesRef := messagesRef h; toolsRef := toolsRef h;
     unsubscribeRef := unsubscribeRef h; world := world h |}.

Definition with_world (f : World -> World) (h : Hook) : Hook :=
  {| chatId := chatId h; live := live h; userInput := userInput h;
     tools := tools h; initialMessages := initialMessages h;
     toolHandlersRef := toolHandlersRef h; messageRef := messageRef h;
     messagesRef := messagesRef h; toolsRef := toolsRef h;
     unsubscribeRef := unsubscribeRef h; world := f (world h) |}.

Definition setUserInput (s : string) (h : Hook) : Hook :=
  {| chatId := chatId h; live := live h; userInput := s;
     tools := tools h; initialMessages := initialMessages h;
     toolHandlersRef := toolHandlersRef h; messageRef := messageRef h;
     messagesRef := messagesRef h; toolsRef := toolsRef h;
     unsubscribeRef := unsubscribeRef h; world := world h |}.

Definition setTools
    (f : gmap string ToolSerialized -> gmap string ToolSerialized)
    (h : Hook) : Hook :=
  {| chatId := chatId h; live := live h; userInput := userInput h;
     tools := f (tools h); initialMessages := initialMessages h;
     toolHandlersRef := toolHandlersRef h; messageRef := messageRef h;
     messagesRef := messagesRef h; toolsRef := toolsRef h;
     unsubscribeRef := unsubscribeRef h; world := world h |}.

Definition setInitialMessages (ms : list MessageResponse) (h : Hook) : Hook :=
  {| chatId := chatId h; live := live h; userInput := userInput h;
     tools := tools h; initialMessages := ms;
     toolHandlersRef := toolHandlersRef h; messageRef := messageRef h;
     messagesRef := messagesRef h; toolsRef := toolsRef h;
     unsubscribeRef := unsubscribeRef h; world := world h |}.

Definition set_toolHandlersRef
    (f : gmap string ToolHandler -> gmap string ToolHandler)
    (h : Hook) : Hook :=
  {| chatId := chatId h; live := live h; userInput := userInput h;
     tools := tools h; initialMessages := initialMessages h;
     toolHandlersRef := f (toolHandlersRef h); messageRef := messageRef h;
     messagesRef := messagesRef h; toolsRef := toolsRef h;
     unsubscribeRef := unsubscribeRef h; world := world h |}.

Definition set_unsubscribeRef (u : option nat) (h : Hook) : Hook :=
  {| chatId := chatId h; live := live h; userInput := userInput h;
     tools := tools h; initialMessages := initialMessages h;
     toolHandlersRef := toolHandlersRef h; messageRef := messageRef h;
     messagesRef := messagesRef h; toolsRef := toolsRef h;
     unsubscribeRef := u; world := world h |}.

Definition set_chatId (c : string) (h : Hook) : Hook :=
  {| chatId := c; live := live h; userInput := userInput h;
     tools := tools h; initialMessages := initialMessages h;
     toolHandlersRef := toolHandlersRef h; messageRef := messageRef h;
     messagesRef := messagesRef h; toolsRef := toolsRef h;
     unsubscribeRef := unsubscribeRef h; world := world h |}.

(** The effect without a dependency list (source lines 73-78): after
    every committed render the refs take the values that render saw. *)
Definition syncRefs (h : Hook) : Hook :=
  {| chatId := chatId h; live := live h; userInput := userInput h;
     tools := tools h; initialMessages := initialMessages h;
     toolHandlersRef := toolHandlersRef h;
     messageRef := message (live h);
     messagesRef := messages (live h);
     toolsRef := tools h;
     unsubscribeRef := unsubscribeRef h; world := world h |}.

(** ** Message mappers ([lib/mappers]) *)

(** Modelled from the spec: [createTextMessageFromUserInput] of
    [lib/mappers.ts] is missing.  "Constructs a UserMessage from text":
    a user message of the chat with one text part and a client-side id. *)
Definition createTextMessageFromUserInput (a : Ambient) (text chat : string)
  : MessageResponse :=
  ChatMessage (uuid a 1) user (now a) (Some chat) [TextPart text].

(** Modelled from the spec: [createTextMessageFromAgUiEvent] of
    [lib/mappers.ts] is missing.  The in-progress message is an assistant
    message stamped with the current time whose text is the buffer the
    transport hands over with the event (empty at message-start, the
    cumulative value afterwards, which the spec prefers to
    re-concatenation). *)
Definition createTextMessageFromAgUiEvent (a : Ambient) (messageId : string)
    (textMessageBuffer : string) : MessageResponse :=
  ChatMessage messageId assistant (now a) None [TextPart textMessageBuffer].

(** Modelled from the spec: [createToolMessageFromAgUiEvent] of
    [lib/mappers.ts] is missing.  "A finalized ToolInvocation content part
    with status complete" carrying the tool name and the raw arguments. *)
Definition createToolMessageFromAgUiEvent (a : Ambient) (toolCallId : string)
    (toolCallName : string) (toolCallArgs : Json) : MessageResponse :=
  ChatMessage toolCallId assistant (now a) None
    [ToolInvocationPart toolCallName toolCallArgs COMPLETE].

(** Modelled from the spec: [createCustomMessageWidget] of
    [lib/mappers.ts] is missing.  "A finalized custom widget message tagged
    with the tool name and arguments". *)
Definition createCustomMessageWidget (a : Ambient) (toolCallArgs : Json)
    (toolCallName chat : string) : MessageResponse :=
  WidgetMessage (uuid a 0) (now a) chat toolCallName toolCallArgs.

(** ** Events of the AG-UI transport *)

Inductive AgUiEvent : Type :=
| TextMessageStartEvent (messageId : string)
| TextMessageContentEvent (messageId delta textMessageBuffer : string)
| TextMessageEndEvent (messageId textMessageBuffer : string)
| ToolCallStartEvent (toolCallName : string)
| ToolCallEndEvent (toolCallId toolCallName : string) (toolCallArgs : Json)
| StateSnapshotEvent (snapshot : Json)
| StateChanged (snapshot : Json)
| RunFinishedEvent
| CustomEv (event : CustomEvent)
| RunErrorEvent (errorMessage : string) (rawEventName : option string).

(** ** The subscriber callbacks of [sendMessage] *)

Definition append_message (m : option MessageResponse)
    (ms : list (option MessageResponse)) : list (option MessageResponse) :=
  ms ++ [m].

Definition onTextMessageStartEvent (a : Ambient) (messageId : string)
    (h : Hook) : Hook :=
  with_live
    (setMessage (Some (createTextMessageFromAgUiEvent a messageId ""))) h.

Definition onTextMessageContentEvent (a : Ambient)
    (messageId textMessageBuffer : string) (h : Hook) : Hook :=
  with_live
    (setMessage
       (Some (createTextMessageFromAgUiEvent a messageId textMessageBuffer)))
    h.

(** [setMessages(state => [...state, messageRef.current!])]: what is
    appended is the ref's value, not the [message] cell. *)
Definition onTextMessageEndEvent (h : Hook) : Hook :=
  with_live
    (fun l =>
       setRunningAgent false
         (setMessage None (setMessages (append_message (messageRef h)) l)))
    h.

Definition log_handler_call (n : string) (v : Json) (w : World) : World :=
  {| agent := agent w; next_agent := next_agent w;
     subscribers := subscribers w; released := released w;
     next_handle := next_handle w;
     aborted := aborted w; refetchChats_calls := refetchChats_calls w;
     handler_calls := handler_calls w ++ [(n, v)]; runs := runs w |}.

Definition onToolCallEndEvent (a : Ambient) (chat : string)
    (toolCallId toolCallName : string) (toolCallArgs : Json) (h : Hook)
  : Result Hook :=
  let tool := toolsRef h !! toolCallName in
  let toolHandler := toolHandlersRef h !! toolCallName in
  let generic :=
    createToolMessageFromAgUiEvent a toolCallId toolCallName toolCallArgs in
  match tool, toolHandler ≫= handler, truthy toolCallArgs with
  | Some _, Some run_handler, true =>
      match run_handler toolCallArgs with
      | Raised e => Throw e
      | Returned =>
          Ok (with_live (setMessages (append_message (Some generic)))
                (with_world (log_handler_call toolCallName toolCallArgs) h))
      end
  | _, _, _ =>
      match tool, toolHandler ≫= render, truthy toolCallArgs with
      | Some _, Some _, true =>
          Ok (with_live
                (setMessages
                   (append_message
                      (Some (createCustomMessageWidget a toolCallArgs
                               toolCallName chat))))
                h)
      | _, _, _ =>
          Ok (with_live (setMessages (append_message (Some generic))) h)
      end
  end.

Definition onStateSnapshotEvent (snapshot : Json) (h : Hook) : Hook :=
  with_live (setState snapshot) h.

(** [unsubscribe()] of one subscription: it leaves its agent's subscriber
    list, so that no run started later takes it; its callbacks still
    exist. *)
Definition unsubscribe (hd : nat) (w : World) : World :=
  {| agent := agent w; next_agent := next_agent w;
     subscribers :=
       List.filter (fun s => negb (Nat.eqb (sub_handle s) hd)) (subscribers w);
     released :=
       released w ++
         List.filter (fun s => Nat.eqb (sub_handle s) hd) (subscribers w);
     next_handle := next_handle w;
     aborted := aborted w; refetchChats_calls := refetchChats_calls w;
     handler_calls := handler_calls w; runs := runs w |}.

Definition refetchChats (w : World) : World :=
  {| agent := agent w; next_agent := next_agent w;
     subscribers := subscribers w; released := released w;
     next_handle := next_handle w;
     aborted := aborted w; refetchChats_calls := S (refetchChats_calls w);
     handler_calls := handler_calls w; runs := runs w |}.

(** [unsubscribe(); unsubscribeRef.current = null; refetchChats();] *)
Definition onRunFinishedEvent (hd : nat) (h : Hook) : Hook :=
  with_world refetchChats
    (set_unsubscribeRef None (with_world (unsubscribe hd) h)).

Definition onCustomEvent (e : CustomEvent) (h : Hook) : Result Hook :=
  p ← progress_updater e (progress (live h));
  Ok (with_live (setProgress p) h).

(** [params.event.rawEvent?.name === 'AbortError'] *)
Definition is_abort (rawEventName : option string) : bool :=
  match rawEventName with
  | Some n => String.eqb n "AbortError"
  | None => false
  end.

Definition onRunErrorEvent (a : Ambient) (chat errorMessage : string)
    (rawEventName : option string) (h : Hook) : Hook :=
  if is_abort rawEventName then h
  else
    with_live
      (fun l =>
         setMessages
           (append_message
              (Some (ErrorMessage (uuid a 0) (now a) chat errorMessage)))
           (setRunningAgent false l))
      h.

(** The callback a subscription runs for an event. *)
Definition handle_event (a : Ambient) (s : Subscription) (ev : AgUiEvent)
    (h : Hook) : Result Hook :=
  match ev with
  | TextMessageStartEvent mid => Ok (onTextMessageStartEvent a mid h)
  | TextMessageContentEvent mid _ buf =>
      Ok (onTextMessageContentEvent a mid buf h)
  | TextMessageEndEvent _ _ => Ok (onTextMessageEndEvent h)
  | ToolCallStartEvent _ => Ok h
  | ToolCallEndEvent tid n v => onToolCallEndEvent a (sub_chatId s) tid n v h
  | StateSnapshotEvent v | StateChanged v => Ok (onStateSnapshotEvent v h)
  | RunFinishedEvent => Ok (onRunFinishedEvent (sub_handle s) h)
  | CustomEv e => onCustomEvent e h
  | RunErrorEvent msg raw => Ok (onRunErrorEvent a (sub_chatId s) msg raw h)
  end.

Definition find_subscription (hd : nat) (w : World) : option Subscription :=
  List.find (fun s => Nat.eqb (sub_handle s) hd) (subscribers w).

Definition find_released (hd : nat) (w : World) : option Subscription :=
  List.find (fun s => Nat.eqb (sub_handle s) hd) (released w).

(** The client calls the callback of the subscription [hd] for an event.
    The callbacks test no handle: the callback runs whether the
    subscription is still in a subscriber list or has been released (the
    run in flight still holds it).  Nothing happens only when no
    subscription with that handle was ever made. *)
Definition deliver (a : Ambient) (hd : nat) (ev : AgUiEvent) (h : Hook)
  : Result Hook :=
  match find_subscription hd (world h) with
  | Some s => handle_event a s ev h
  | None =>
      match find_released hd (world h) with
      | Some s => handle_event a s ev h
      | None => Ok h
      end
  end.

(** A run of deliveries, each followed or not by a committed render.
    Delivery stops at the first exception. *)
Inductive Step : Type :=
| Deliver (a : Ambient) (hd : nat) (ev : AgUiEvent)
| Commit.

Definition step (st : Step) (h : Hook) : Result Hook :=
  match st with
  | Deliver a hd ev => deliver a hd ev h
  | Commit => Ok (syncRefs h)
  end.

Fixpoint run_steps (sts : list Step) (h : Hook) : Result Hook :=
  match sts with
  | [] => Ok h
  | st :: rest => h' ← step st h; run_steps rest h'
  end.

(** ** [sendMessage] *)

(** [agent.subscribe({...})]: a new entry in the subscriber list of the
    agent of the current render. *)
Definition subscribe (chat : string) (w : World) : World :=
  {| agent := agent w; next_agent := next_agent w;
     subscribers :=
       subscribers w ++
         [{| sub_handle := next_handle w; sub_agent := agent w;
             sub_chatId := chat |}];
     released := released w;
     next_handle := S (next_handle w);
     aborted := aborted w; refetchChats_calls := refetchChats_calls w;
     handler_calls := handler_calls w; runs := runs w |}.

(** [agent.runAgent({ tools })] after [agent.messages = [...]]. *)
Definition runAgent (text : string) (ts : list ToolSerialized) (w : World)
  : World :=
  {| agent := agent w; next_agent := next_agent w;
     subscribers := subscribers w; released := released w;
     next_handle := next_handle w;
     aborted := aborted w; refetchChats_calls := refetchChats_calls w;
     handler_calls := handler_calls w;
     runs :=
       runs w ++
         [{| run_agent := agent w; run_input := text; run_tools := ts |}] |}.

Definition sendMessage (a : Ambient) (text : string) (h : Hook) : Hook :=
  let historyMessage := createTextMessageFromUserInput a text (chatId h) in
  let h1 :=
    with_live
      (fun l =>
         setRunningAgent true
           (setMessages (append_message (Some historyMessage)) l))
      (setUserInput "" h) in
  let hd := next_handle (world h1) in
  let h2 := set_unsubscribeRef (Some hd) (with_world (subscribe (chatId h)) h1) in
  with_world (runAgent text (enabled_tools (tools h))) h2.

(** ** Changing the chat *)

(** [if (!chatId) chatId = 'main'] *)
Definition normalize_chatId (c : string) : string :=
  if String.eqb c "" then "main" else c.

Definition abort_agent (w : World) : World :=
  {| agent := agent w; next_agent := next_agent w;
     subscribers := subscribers w; released := released w;
     next_handle := next_handle w;
     aborted := aborted w ++ [agent w];
     refetchChats_calls := refetchChats_calls w;
     handler_calls := handler_calls w; runs := runs w |}.

(** The clean-up of the effect on [chatId] (source lines 85-90), run with
    the agent of the chat that is left. *)
Definition cleanup (h : Hook) : Hook :=
  with_world abort_agent
    (match unsubscribeRef h with
     | Some hd => with_world (unsubscribe hd) h
     | None => h
     end).

(** [useMemo(() => createAgent({ url, threadId: chatId }), [chatId])] *)
Definition createAgent (w : World) : World :=
  {| agent := next_agent w; next_agent := S (next_agent w);
     subscribers := subscribers w; released := released w;
     next_handle := next_handle w;
     aborted := aborted w; refetchChats_calls := refetchChats_calls w;
     handler_calls := handler_calls w; runs := runs w |}.

(** The body of the effect on [chatId] (source lines 81-84). *)
Definition reset_live (l : LiveState) : LiveState :=
  setRunningAgent false
    (setProgress ∅ (setMessage None (setMessages (fun _ => []) l))).

(** The [chatId] property takes the value [newId] and the render is
    committed: the clean-up of the previous chat's effect runs, then the
    effects of the new render in the order of their declaration.  Nothing
    happens when the identifier, once normalised, is the one already
    active. *)
Definition switchChat (newId : string) (h : Hook) : Hook :=
  let c := normalize_chatId newId in
  if String.eqb c (chatId h) then h
  else
    with_live reset_live
      (syncRefs (set_chatId c (with_world createAgent (cleanup h)))).

(** The hook as first mounted for chat [c]. *)
Definition initial_hook (c : string) : Hook :=
  {| chatId := normalize_chatId c;
     live := {| state := JObj []; messages := []; message := None;
                progress := ∅; runningAgent := false;
                messages_ref := 0; message_ref := 0 |};
     userInput := "";
     tools := ∅;
     initialMessages := [];
     toolHandlersRef := ∅;
     messageRef := None;
     messagesRef := [];
     toolsRef := ∅;
     unsubscribeRef := None;
     world := {| agent := 0; next_agent := 1; subscribers := [];
                 released := [];
                 next_handle := 0; aborted := []; refetchChats_calls := 0;
                 handler_calls := []; runs := [] |} |}.

(** ** Tool registration *)

Definition registerOrUpdateTool (id : string) (tool : ToolSerialized)
    (h : Hook) : Hook :=
  setTools (fun st => <[id := tool]> st) h.

Definition updateToolHandler (n : string) (th : ToolHandler) (h : Hook)
  : Hook :=
  set_toolHandlersRef (fun st => <[n := th]> st) h.

Definition removeTool (n : string) (h : Hook) : Hook :=
  set_toolHandlersRef (fun st => delete n st)
    (setTools (fun st => delete n st) h).

Definition getTool (n : string) (h : Hook)
  : option (ToolSerialized * ToolHandler) :=
  match tools h !! n, toolHandlersRef h !! n with
  | Some t, Some th => Some (t, th)
  | _, _ => None
  end.

(** ** The merged view *)

(** The function handed to [useMemo] (source lines 217-227).  [history]
    is the [data] of [useFetchHistory] ([undefined] until fetched) and
    [isLoadingHistory] its loading flag; [initialMessages], an array, is
    always truthy. *)
Definition combinedMessages_compute (isLoadingHistory : bool)
    (history : option (list MessageResponse)) (h : Hook)
  : list (option MessageResponse) :=
  let history_empty :=
    match history with
    | Some hs => (length hs =? 0)%nat
    | None => true
    end in
  let seed :=
    if negb isLoadingHistory && history_empty
    then Some <$> initialMessages h else [] in
  let with_history :=
    match history with
    | Some hs => seed ++ (Some <$> hs)
    | None => seed
    end in
  let with_live_messages := with_history ++ messages (live h) in
  match message (live h) with
  | Some m => with_live_messages ++ [Some m]
  | None => with_live_messages
  end.

(** What [useFetchHistory] gives a render: [data] with the identity of
    its array, and [isLoading]. *)
Record FetchHistory : Type :=
  { data : option (list MessageResponse); data_ref : nat; isLoading : bool }.

(** The dependency list [[history, messages, message, isLoadingHistory]]
    (source line 228) as [Object.is] sees it: arrays and objects by
    identity, [undefined], [null] and booleans by value.
    [initialMessages] is not in the list. *)
Record Deps : Type :=
  { dep_history : option nat; dep_messages : nat; dep_message : option nat;
    dep_isLoadingHistory : bool }.

#[global] Instance Deps_eq_dec : EqDecision Deps.
Proof. solve_decision. Defined.

Definition deps_of (q : FetchHistory) (h : Hook) : Deps :=
  {| dep_history :=
       match data q with Some _ => Some (data_ref q) | None => None end;
     dep_messages := messages_ref (live h);
     dep_message :=
       match message (live h) with
       | Some _ => Some (message_ref (live h))
       | None => None
       end;
     dep_isLoadingHistory := isLoading q |}.

(** The cell of [useMemo]: the dependencies of the last computation and
    its result. *)
Record MemoCell : Type :=
  { memo_deps : Deps; memo_value : list (option MessageResponse) }.

(** [combinedMessages] at a render: the cached view when no dependency
    has changed since it was computed, a new computation otherwise.
    [cell] is what the previous render left ([None] at the first render);
    the result is the cell this render leaves, whose [memo_value] is the
    view. *)
Definition combinedMessages (q : FetchHistory) (h : Hook)
    (cell : option MemoCell) : MemoCell :=
  let fresh :=
    {| memo_deps := deps_of q h;
       memo_value := combinedMessages_compute (isLoading q) (data q) h |} in
  match cell with
  | Some c => if decide (memo_deps c = deps_of q h) then c else fresh
  | None => fresh
  end.

(** ** Events and values used in the examples *)

Definition progress_done (id : string) (step : Z) : CustomEvent :=
  {| ce_name := "progress-done";
     ce_value := {| v_id := id; v_steps := []; v_step := step;
                    v_message := "" |} |}.

Definition progress_error (id : string) (step : Z) (msg : string)
  : CustomEvent :=
  {| ce_name := "progress-error";
     ce_value := {| v_id := id; v_steps := []; v_step := step;
                    v_message := msg |} |}.

Definition progress_start (id : string) (steps : list ProgressStep)
  : CustomEvent :=
  {| ce_name := "progress-start";
     ce_value := {| v_id := id; v_steps := steps; v_step := 0;
                    v_message := "" |} |}.

Definition ambient0 : Ambient := {| uuid := fun _ => "u"; now := 0 |}.

Definition snapshot1 : Json := JObj [("topic", JStr "weather")].

(** A chat "t1" in which a message has been sent and the render
    committed: the run's subscription has handle 0. *)
Definition running_t1 : Hook :=
  syncRefs (sendMessage ambient0 "hi" (initial_hook "t1")).

(** ** What can happen to a mounted hook *)

Inductive Action : Type :=
| ASend (a : Ambient) (text : string)
| ASwitch (newId : string)
| ARegister (id : string) (tool : ToolSerialized)
| ABind (n : string) (th : ToolHandler)
| ARemove (n : string)
| AStep (st : Step).

Definition act (x : Action) (h : Hook) : Result Hook :=
  match x with
  | ASend a text => Ok (sendMessage a text h)
  | ASwitch newId => Ok (switchChat newId h)
  | ARegister id tool => Ok (registerOrUpdateTool id tool h)
  | ABind n th => Ok (updateToolHandler n th h)
  | ARemove n => Ok (removeTool n h)
  | AStep st => step st h
  end.

Fixpoint run_actions (xs : list Action) (h : Hook) : Result Hook :=
  match xs with
  | [] => Ok h
  | x :: rest => h' ← act x h; run_actions rest h'
  end.

(** A handle that has been allocated and is in no subscriber list. *)
Definition unsubscribed (hd : nat) (h : Hook) : Prop :=
  find_subscription hd (world h) = None /\ (hd < next_handle (world h))%nat.

(** The content events of one message as the transport sends them: each
    carries its delta and the cumulative buffer.  [content_steps]
    commits a render after every event, [content_batch] delivers them
    with no render in between. *)
Fixpoint content_steps (a : Ambient) (hd : nat) (mid buf : string)
    (deltas : list string) : list Step :=
  match deltas with
  | [] => []
  | d :: ds =>
      Deliver a hd (TextMessageContentEvent mid d (buf +:+ d)) :: Commit ::
        content_steps a hd mid (buf +:+ d) ds
  end.

Fixpoint content_batch (a : Ambient) (hd : nat) (mid buf : string)
    (deltas : list string) : list Step :=
  match deltas with
  | [] => []
  | d :: ds =>
      Deliver a hd (TextMessageContentEvent mid d (buf +:+ d)) ::
        content_batch a hd mid (buf +:+ d) ds
  end.

Definition concat_deltas (deltas : list string) : string :=
  foldr String.append "" deltas.

(** The in-progress message and its ref agree and hold buffer [buf]. *)
Definition assembling (a : Ambient) (hd : nat) (s : Subscription)
    (mid buf : string) (h : Hook) : Prop :=
  find_subscription hd (world h) = Some s /\
  message (live h) = Some (createTextMessageFromAgUiEvent a mid buf) /\
  messageRef h = Some (createTextMessageFromAgUiEvent a mid buf).

Definition seed1 : MessageResponse :=
  ChatMessage "seed" assistant 0 None [TextPart "Hi. I offer features."].

(** A hook for chat "t1" that holds the seed message, and what the
    history query reports while it loads and once it has loaded an empty
    history. *)
Definition seeded_t1 : Hook := setInitialMessages [seed1] (initial_hook "t1").

Definition history_loading : FetchHistory :=
  {| data := None; data_ref := 0; isLoading := true |}.

Definition history_empty : FetchHistory :=
  {| data := Some []; data_ref := 1; isLoading := false |}.

(** The view of the first render of chat "t1", computed while the history
    loads. *)
Definition first_view : MemoCell :=
  combinedMessages history_loading (initial_hook "t1") None.

Definition alert_tool : ToolSerialized :=
  {| name := "ui-alert"; description := "Action. Display an alert to user";
     parameters := JObj []; enabled := None |}.

Definition alert_args : Json := JObj [("message", JStr "x")].

Definition returning_handler : ToolHandler :=
  {| handler := Some (fun _ => Returned); render := None;
     renderAndWait := None |}.

Definition raising_handler : ToolHandler :=
  {| handler := Some (fun _ => Raised "denied"); render := None;
     renderAndWait := None |}.

(** ** Reachable hooks *)

(** What every hook reached from a mount satisfies (see
    [well_formed_reachable]). *)
Definition well_formed (h : Hook) : Prop :=
  chatId h <> "" /\
  (forall s, s ∈ subscribers (world h) ->
     (sub_handle s < next_handle (world h))%nat /\
     (sub_agent s <= agent (world h))%nat) /\
  NoDup (sub_handle <$> subscribers (world h)) /\
  (agent (world h) < next_agent (world h))%nat /\
  (forall x, x ∈ aborted (world h) -> (x < agent (world h))%nat) /\
  (forall s, s ∈ subscribers (world h) ->
     sub_agent s = agent (world h) \/ sub_agent s ∈ aborted (world h)).

(** ** [useAgUiTool] ([hooks/use-ag-ui-tool]) *)

(** The argument of [useAgUiTool].  [tool_schema] stands for the value
    of [z.toJSONSchema(rest.parameters)], which the zod library
    computes. *)
Record Tool : Type :=
  { tool_name : string;
    tool_description : string;
    tool_schema : Json;
    tool_handler : option (Json -> Completion);
    tool_render : option nat;
    tool_renderAndWait : option nat;
    tool_enabled : option bool }.

(** [delete json[k]] *)
Definition delete_key (k : string) (j : Json) : Json :=
  match j with
  | JObj fields =>
      JObj (List.filter (fun kv => negb (String.eqb kv.1 k)) fields)
  | _ => j
  end.

(** The memoised [parameters] (source lines 8-14). *)
Definition tool_parameters (t : Tool) : Json :=
  delete_key "additionalProperties" (delete_key "$schema" (tool_schema t)).

(** [`ui-${rest.name}`] *)
Definition ui_name (t : Tool) : string := "ui-" +:+ tool_name t.

(** [{ ...rest, name, parameters }] *)
Definition tool_descriptor (t : Tool) : ToolSerialized :=
  {| name := ui_name t; description := tool_description t;
     parameters := tool_parameters t; enabled := tool_enabled t |}.

(** [{ handler, renderAndWait, render }] *)
Definition tool_binding (t : Tool) : ToolHandler :=
  {| handler := tool_handler t; render := tool_render t;
     renderAndWait := tool_renderAndWait t |}.

(** The body of the first effect (source lines 20-21). *)
Definition useAgUiTool_mount (t : Tool) (h : Hook) : Hook :=
  updateToolHandler (ui_name t) (tool_binding t)
    (registerOrUpdateTool (ui_name t) (tool_descriptor t) h).

(** Its clean-up (source lines 23-25). *)
Definition useAgUiTool_unmount (t : Tool) (h : Hook) : Hook :=
  removeTool (ui_name t) h.

(** The second effect (source lines 28-30). *)
Definition useAgUiTool_rebind (t : Tool) (h : Hook) : Hook :=
  updateToolHandler (ui_name t) (tool_binding t) h.

(** ** Rendering a tool invocation ([components/ChatMessage]) *)

(** Which of the three returns of [ToolInvocationPart] is taken. *)
Inductive PartView : Type :=
| RenderView (r : nat) (args : Json)
| RenderAndWaitView (r : nat) (args : Json)
| GenericView (toolName : string) (args : Json).

Definition renderToolInvocationPart (toolName : string) (args : Json) (h : Hook)
  : PartView :=
  let tool := getTool toolName h in
  match tool ≫= (fun p => render p.2) with
  | Some r => RenderView r args
  | None =>
      match tool ≫= (fun p => renderAndWait p.2) with
      | Some r => RenderAndWaitView r args
      | None => GenericView toolName args
      end
  end.

(** ** Chat history ([getChatHistory], [selectMessages]) *)

(** A message of the AG-UI API.  [msg_timestamp] is [JUndefined] when the
    field is absent. *)
Inductive AgUiRole : Type :=
| role_developer | role_system | role_assistant | role_user | role_tool.

Record AgUiMessage : Type :=
  { msg_id : string; msg_role : AgUiRole; msg_content : option string;
    msg_timestamp : Json }.

(** A [Date]: [new Date(v)] for a value of the response, or
    [new Date(ms)] for a literal number of milliseconds. *)
Inductive JsDate : Type := DateOf (v : Json) | DateOfMillis (ms : Z).

Record MastraMessageV2 : Type :=
  { mastra_id : string; mastra_role : Role; mastra_createdAt : JsDate;
    mastra_format : Z; mastra_parts : list ContentPart;
    mastra_content : option string }.

(** [aguiMessage.content || ''] *)
Definition content_or_empty (c : option string) : string :=
  match c with
  | Some s => if String.eqb s "" then "" else s
  | None => ""
  end.

(** The object built in the loop of [getChatHistory] (source lines
    66-76). *)
Definition toMastraMessage (m : AgUiMessage) : MastraMessageV2 :=
  {| mastra_id := msg_id m;
     mastra_role :=
       match msg_role m with
       | role_developer | role_tool => system
       | role_system => system
       | role_assistant => assistant
       | role_user => user
       end;
     mastra_createdAt :=
       if truthy (msg_timestamp m) then DateOf (msg_timestamp m)
       else DateOfMillis 1678886400000;
     mastra_format := 2;
     mastra_parts := [TextPart (content_or_empty (msg_content m))];
     mastra_content := msg_content m |}.

Record MessagePage (M : Type) : Type := { page_messages : list M }.
Arguments page_messages {M} _.

(** [getChatHistory], from the body of the response on: the loop pushes
    one converted message per received message. *)
Definition getChatHistory (response : list AgUiMessage)
  : MessagePage MastraMessageV2 :=
  {| page_messages :=
       fold_left (fun acc m => acc ++ [toMastraMessage m]) response [] |}.

(** [res.pages.flatMap(page => page.messages)] *)
Definition selectMessages {M : Type} (pages : list (MessagePage M)) : list M :=
  flat_map page_messages pages.

(** ** Further hooks used in the examples *)

(** Chat "t1" after a run that ended with an error and a second message:
    the subscriptions 0 and 1 are both in place. *)
Definition two_runs_t1 : list Action :=
  [ASend ambient0 "hi"; AStep Commit;
   AStep (Deliver ambient0 0 (RunErrorEvent "boom" None));
   ASend ambient0 "again"].

Definition superseded_t1 : Hook :=
  sendMessage ambient0 "again"
    (onRunErrorEvent ambient0 "t1" "boom" None running_t1).

Definition disabled_tool : ToolSerialized :=
  {| name := "ui-alert"; description := "Action. Display an alert to user";
     parameters := JObj []; enabled := Some false |}.

Definition weather_tool : ToolSerialized :=
  {| name := "ui-weather"; description := "Widget. Displays weather";
     parameters := JObj []; enabled := Some true |}.

(** A hook with the alert and the weather tool registered. *)
Definition two_tools_t1 : Hook :=
  registerOrUpdateTool "ui-weather" weather_tool
    (registerOrUpdateTool "ui-alert" alert_tool (initial_hook "t1")).

Definition two_steps : list ProgressStep :=
  [{| label := "A"; done := false; error := None |};
   {| label := "B"; done := false; error := None |}].

(** Chat "t1" with a running track "p1" of two open steps. *)
Definition tracking_t1 : Hook :=
  with_live (setProgress (<["p1" := two_steps]> ∅)) running_t1.

Definition weather_widget : Tool :=
  {| tool_name := "weather";
     tool_description := "Widget. Displays weather result to user";
     tool_schema :=
       JObj [("$schema", JStr "https://json-schema.org/draft/2020-12/schema");
             ("type", JStr "object");
             ("properties", JObj [("location", JObj [("type", JStr "string")])]);
             ("additionalProperties", JBool false)];
     tool_handler := None;
     tool_render := Some 7%nat;
     tool_renderAndWait := None;
     tool_enabled := None |}.

Definition alert_action : Tool :=
  {| tool_name := "alert";
     tool_description := "Action. Display an alert to user";
     tool_schema := JObj [("type", JStr "object")];
     tool_handler := Some (fun _ => Returned);
     tool_render := None;
     tool_renderAndWait := None;
     tool_enabled := None |}.

(** * Properties *)

(** Closed goals about concrete hooks are settled by evaluation. *)
Ltac evaluate := vm_compute; reflexivity.

(** ** Progress tracks *)

Lemma map_step_lookup step f (steps : list ProgressStep) (i : nat) :
  map_step step f steps !! i =
  (fun s => if decide (step = Z.of_nat i) then f s else s) <$> steps !! i.
Proof. unfold map_step. apply list_lookup_imap. Qed.

Lemma map_step_length step f (steps : list ProgressStep) :
  length (map_step step f steps) = length steps.
Proof. unfold map_step. apply length_imap. Qed.

(** An index that names no element of the track leaves the track as it
    is. *)
Lemma map_step_out_of_range step f (steps : list ProgressStep) :
  (step < 0 \/ Z.of_nat (length steps) <= step) ->
  map_step step f steps = steps.
Proof.
  intros Hrange. apply list_eq. intros i. rewrite map_step_lookup.
  destruct (steps !! i) as [s|] eqn:Hi; simpl; [|reflexivity].
  apply lookup_lt_Some in Hi.
  destruct (decide (step = Z.of_nat i)) as [->|]; [lia|reflexivity].
Qed.

Lemma update_track_missing id step f (st : gmap string (list ProgressStep)) :
  st !! id = None -> is_ok (update_track id step f st) = false.
Proof. intros Hnone. unfold update_track. rewrite Hnone. reflexivity. Qed.

(** When the track exists and only the index is out of range, the
    mapping is unchanged. *)
Lemma update_track_out_of_range id step f
    (st : gmap string (list ProgressStep)) steps :
  st !! id = Some steps ->
  (step < 0 \/ Z.of_nat (length steps) <= step) ->
  update_track id step f st = Ok st.
Proof.
  intros Hsome Hrange. unfold update_track. rewrite Hsome.
  rewrite map_step_out_of_range by assumption.
  rewrite insert_id by assumption. reflexivity.
Qed.

(** C2: a progress-done or progress-error event for a track id that is
    not in the progress mapping is not a silent no-op.  The updater reads
    [state[id]], which is [undefined], and calls [.map] on it: on a hook
    that has just started a run and holds no track, delivering
    progress-done or progress-error for track "p1" raises a TypeError. *)
Theorem progress_event_for_missing_track_throws :
  let h := sendMessage ambient0 "hi" (initial_hook "t1") in
  progress (live h) !! "p1" = None /\
  deliver ambient0 0 (CustomEv (progress_done "p1" 0)) h =
    Throw "TypeError: Cannot read properties of undefined (reading 'map')" /\
  deliver ambient0 0 (CustomEv (progress_error "p1" 0 "late")) h =
    Throw "TypeError: Cannot read properties of undefined (reading 'map')".
Proof. vm_compute. repeat split; reflexivity. Qed.

(** What progress-done and progress-error do to the step they name, and
    to every other step of the track. *)
Lemma update_track_lookup id step f (st st' : gmap string (list ProgressStep))
    steps :
  st !! id = Some steps ->
  update_track id step f st = Ok st' ->
  st' !! id = Some (map_step step f steps) /\
  (forall id', id' <> id -> st' !! id' = st !! id').
Proof.
  intros Hsome Hupd. unfold update_track in Hupd. rewrite Hsome in Hupd.
  injection Hupd as <-. split.
  - apply lookup_insert_eq.
  - intros id' Hne. apply lookup_insert_ne. congruence.
Qed.

(** C4 (as stated, refuted): a step that progress-done has marked done is
    changed by a later progress-error for the same (track, index), and it
    ends up both done and errored. *)
Lemma progress_done_then_error_marks_both :
  let s0 := {| label := "A"; done := false; error := None |} in
  exists st1 st2 st3,
    progress_updater (progress_start "p1" [s0]) ∅ = Ok st1 /\
    progress_updater (progress_done "p1" 0) st1 = Ok st2 /\
    progress_updater (progress_error "p1" 0 "boom") st2 = Ok st3 /\
    st2 !! "p1" = Some [{| label := "A"; done := true; error := None |}] /\
    st3 !! "p1" =
      Some [{| label := "A"; done := true; error := Some "boom" |}] /\
    st3 !! "p1" <> st2 !! "p1".
Proof.
  simpl. eexists _, _, _.
  split; [reflexivity|]. split; [evaluate|].
  split; [evaluate|].
  split; [evaluate|]. split; [evaluate|].
  vm_compute. discriminate.
Qed.

(** C4 (amended): a progress-done or progress-error event never removes a
    marking.  For every step of every track, after such an event the step
    is still there with the same label, it is done if it was done, and it
    carries an error if it carried one (the error text may be replaced,
    and a step may carry both markings). *)
Theorem progress_marks_persist (e : CustomEvent)
    (st st' : gmap string (list ProgressStep)) (id : string)
    (steps : list ProgressStep) (i : nat) (s : ProgressStep) :
  isProgressStart e = false ->
  progress_updater e st = Ok st' ->
  st !! id = Some steps ->
  steps !! i = Some s ->
  exists steps' s',
    st' !! id = Some steps' /\ steps' !! i = Some s' /\
    label s' = label s /\
    (done s = true -> done s' = true) /\
    (is_Some (error s) -> is_Some (error s')).
Proof.
  intros Hstart Hupd Hid Hi. unfold progress_updater in Hupd.
  rewrite Hstart in Hupd.
  assert (Hgen : forall f,
    (forall x, label (f x) = label x /\
               (done x = true -> done (f x) = true) /\
               (is_Some (error x) -> is_Some (error (f x)))) ->
    update_track (v_id (ce_value e)) (v_step (ce_value e)) f st = Ok st' ->
    exists steps' s',
      st' !! id = Some steps' /\ steps' !! i = Some s' /\
      label s' = label s /\
      (done s = true -> done s' = true) /\
      (is_Some (error s) -> is_Some (error s'))).
  { intros f Hf Hu. unfold update_track in Hu.
    destruct (st !! v_id (ce_value e)) as [tr|] eqn:Htr; [|discriminate].
    injection Hu as <-.
    destruct (decide (v_id (ce_value e) = id)) as [Heq|Hne].
    - subst id. rewrite Hid in Htr. injection Htr as <-.
      exists (map_step (v_step (ce_value e)) f steps).
      rewrite lookup_insert_eq, map_step_lookup, Hi. simpl.
      destruct (decide (v_step (ce_value e) = Z.of_nat i)).
      + exists (f s). split; [reflexivity|]. split; [reflexivity|]. apply Hf.
      + exists s. repeat split; auto.
    - exists steps, s. rewrite lookup_insert_ne by assumption.
      repeat split; auto. }
  destruct (isProgressDone e).
  - apply (Hgen mark_done); [|assumption].
    intros x. simpl. repeat split; auto.
  - destruct (isProgressError e).
    + apply (Hgen (mark_error (v_message (ce_value e)))); [|assumption].
      intros x. simpl. repeat split; eauto.
    + injection Hupd as <-. exists steps, s. repeat split; auto.
Qed.

Lemma progress_marks_persist_witness :
  exists steps' s',
    (<["p1" := [{| label := "A"; done := true; error := None |}]]> ∅
       : gmap string (list ProgressStep)) !! "p1" = Some steps' /\
    steps' !! 0%nat = Some s' /\
    label s' = "A" /\
    (true = true -> done s' = true) /\
    (is_Some (@None string) -> is_Some (error s')).
Proof.
  apply (progress_marks_persist (progress_done "p1" 0)
           (<["p1" := [{| label := "A"; done := true; error := None |}]]> ∅)
           _ "p1" [{| label := "A"; done := true; error := None |}] 0%nat
           {| label := "A"; done := true; error := None |}).
  - reflexivity.
  - vm_compute. reflexivity.
  - vm_compute. reflexivity.
  - reflexivity.
Defined.

(** ** Run errors *)

Lemma is_abort_spec raw : is_abort raw = true <-> raw = Some "AbortError".
Proof.
  destruct raw as [n|]; simpl.
  - rewrite String.eqb_eq. split; congruence.
  - split; discriminate.
Qed.

(** C6: a run-error whose raw event is named AbortError changes nothing;
    any other run-error appends exactly one error message carrying the
    error text, at the tail of the finalized sequence, and clears the
    running flag; the rest of the hook is as before. *)
Theorem run_error_event (a : Ambient) (s : Subscription) (msg : string)
    (raw : option string) (h : Hook) :
  exists h',
    handle_event a s (RunErrorEvent msg raw) h = Ok h' /\
    (raw = Some "AbortError" -> h' = h) /\
    (raw <> Some "AbortError" ->
     messages (live h') =
       messages (live h) ++
         [Some (ErrorMessage (uuid a 0) (now a) (sub_chatId s) msg)] /\
     runningAgent (live h') = false /\
     state (live h') = state (live h) /\
     message (live h') = message (live h) /\
     progress (live h') = progress (live h) /\
     world h' = world h).
Proof.
  exists (onRunErrorEvent a (sub_chatId s) msg raw h).
  split; [reflexivity|]. unfold onRunErrorEvent.
  destruct (is_abort raw) eqn:Habort.
  - split; [reflexivity|]. intros Hne. apply is_abort_spec in Habort.
    contradiction.
  - split.
    + intros Heq. apply is_abort_spec in Heq. congruence.
    + intros _. simpl. repeat split; reflexivity.
Qed.

(** ** Run finished *)

Lemma onRunFinishedEvent_live hd h : live (onRunFinishedEvent hd h) = live h.
Proof. reflexivity. Qed.

Lemma find_subscription_unsubscribe hd w :
  find_subscription hd (unsubscribe hd w) = None.
Proof.
  unfold find_subscription, unsubscribe. simpl.
  induction (subscribers w) as [|s l IH]; simpl; [reflexivity|].
  destruct (Nat.eqb (sub_handle s) hd) eqn:E; simpl; [exact IH|].
  rewrite E. exact IH.
Qed.

(** What run-finished does: the subscription is released, the stored
    unsubscribe function is dropped and the chat list is refetched. *)
Lemma onRunFinishedEvent_effects hd h :
  let h' := onRunFinishedEvent hd h in
  find_subscription hd (world h') = None /\
  unsubscribeRef h' = None /\
  refetchChats_calls (world h') = S (refetchChats_calls (world h)).
Proof.
  simpl. split; [|split; reflexivity].
  apply (find_subscription_unsubscribe hd (world h)).
Qed.

(** C7: run-finished does not set the running flag.  In a run that ends
    without a text message (here: straight after [sendMessage]) the
    subscription is released and the chat list refetched, but
    [runningAgent] stays true. *)
Theorem run_finished_leaves_running_flag :
  exists h',
    deliver ambient0 0 RunFinishedEvent running_t1 = Ok h' /\
    find_subscription 0 (world h') = None /\
    unsubscribeRef h' = None /\
    refetchChats_calls (world h') = 1%nat /\
    runningAgent (live running_t1) = true /\
    runningAgent (live h') = true.
Proof.
  eexists. split; [evaluate|].
  repeat split; evaluate.
Qed.

(** ** Switching chats *)

Lemma switchChat_changed newId h :
  normalize_chatId newId <> chatId h ->
  switchChat newId h =
  with_live reset_live
    (syncRefs
       (set_chatId (normalize_chatId newId)
          (with_world createAgent (cleanup h)))).
Proof.
  intros Hne. unfold switchChat.
  destruct (String.eqb (normalize_chatId newId) (chatId h)) eqn:E;
    [|reflexivity].
  apply String.eqb_eq in E. contradiction.
Qed.

(** What a change of chat resets and what it keeps: the finalized
    messages, the in-progress message, the progress mapping and the
    running flag are emptied; the state snapshot is the one of the chat
    that was left. *)
Lemma switchChat_live newId h :
  normalize_chatId newId <> chatId h ->
  let l := live (switchChat newId h) in
  messages l = [] /\ message l = None /\ progress l = ∅ /\
  runningAgent l = false /\ state l = state (live h).
Proof.
  intros Hne. rewrite switchChat_changed by assumption.
  unfold cleanup. destruct (unsubscribeRef h); simpl; repeat split; reflexivity.
Qed.

(** The run session of the chat that is left is torn down: its
    subscription is released and its agent aborted. *)
Lemma switchChat_teardown newId h hd :
  normalize_chatId newId <> chatId h ->
  unsubscribeRef h = Some hd ->
  find_subscription hd (world (switchChat newId h)) = None /\
  agent (world h) ∈ aborted (world (switchChat newId h)).
Proof.
  intros Hne Href. rewrite switchChat_changed by assumption.
  unfold cleanup. rewrite Href. simpl. split.
  - apply (find_subscription_unsubscribe hd (world h)).
  - apply elem_of_app. right. apply list_elem_of_singleton. reflexivity.
Qed.

(** C3: a change of chat does not reset the state snapshot.  Chat "t1"
    receives a snapshot during its run; after the switch to "t2" the
    messages, the in-progress message, the progress mapping and the
    running flag are empty, the session of "t1" is torn down, and the
    snapshot of "t1" is still the hook's state. *)
Theorem switchChat_keeps_state_snapshot :
  exists h1 h2,
    deliver ambient0 0 (StateSnapshotEvent snapshot1) running_t1 = Ok h1 /\
    h2 = switchChat "t2" h1 /\
    chatId h2 = "t2" /\
    messages (live h2) = [] /\ message (live h2) = None /\
    progress (live h2) = ∅ /\ runningAgent (live h2) = false /\
    find_subscription 0 (world h2) = None /\
    state (live (initial_hook "t2")) = JObj [] /\
    state (live h2) = snapshot1.
Proof.
  eexists _, _. split; [evaluate|].
  split; [reflexivity|]. repeat split; evaluate.
Qed.

(** ** Cancelled subscriptions *)

Lemma find_subscription_filter hd (p : Subscription -> bool) l :
  List.find (fun s => Nat.eqb (sub_handle s) hd) l = None ->
  List.find (fun s => Nat.eqb (sub_handle s) hd) (List.filter p l) = None.
Proof.
  induction l as [|s l IH]; simpl; [reflexivity|].
  destruct (Nat.eqb (sub_handle s) hd) eqn:E; [discriminate|].
  intros Hl. destruct (p s); simpl; [rewrite E|]; auto.
Qed.

Lemma find_subscription_snoc hd l s :
  List.find (fun s => Nat.eqb (sub_handle s) hd) l = None ->
  sub_handle s <> hd ->
  List.find (fun s => Nat.eqb (sub_handle s) hd) (l ++ [s]) = None.
Proof.
  intros Hl Hne. induction l as [|s' l IH]; simpl in *.
  - apply Nat.eqb_neq in Hne. rewrite Hne. reflexivity.
  - destruct (Nat.eqb (sub_handle s') hd); [discriminate|]. auto.
Qed.

(** A delivery either finds no callback or runs the callback of a
    subscription with that handle, released or not. *)
Lemma deliver_cases a hd ev h h' :
  deliver a hd ev h = Ok h' ->
  h' = h \/ exists s, sub_handle s = hd /\ handle_event a s ev h = Ok h'.
Proof.
  unfold deliver, find_subscription, find_released.
  destruct (List.find _ (subscribers (world h))) as [s|] eqn:E1.
  - intros Hev. right. exists s. split; [|exact Hev].
    apply find_some in E1 as [_ E1]. apply Nat.eqb_eq. exact E1.
  - destruct (List.find _ (released (world h))) as [s|] eqn:E2.
    + intros Hev. right. exists s. split; [|exact Hev].
      apply find_some in E2 as [_ E2]. apply Nat.eqb_eq. exact E2.
    + intros [= <-]. left. reflexivity.
Qed.

Lemma handle_event_unsubscribed a s ev hd h h' :
  unsubscribed hd h -> handle_event a s ev h = Ok h' -> unsubscribed hd h'.
Proof.
  intros [Hnone Hlt] Hev. unfold unsubscribed, find_subscription in *.
  destruct ev; simpl in Hev;
    try (injection Hev as <-; simpl; split; assumption).
  - unfold onToolCallEndEvent in Hev.
    repeat (match type of Hev with
            | context [match ?x with _ => _ end] => destruct x
            end; try discriminate);
      injection Hev as <-; simpl; split; assumption.
  - injection Hev as <-. simpl. split; [|assumption].
    apply find_subscription_filter. assumption.
  - unfold onCustomEvent in Hev.
    destruct (progress_updater event (progress (live h))); [|discriminate].
    simpl in Hev. injection Hev as <-. simpl. split; assumption.
  - injection Hev as <-. unfold onRunErrorEvent.
    destruct (is_abort rawEventName); simpl; split; assumption.
Qed.

Lemma cleanup_unsubscribed hd h :
  unsubscribed hd h -> unsubscribed hd (cleanup h).
Proof.
  intros [Hnone Hlt]. unfold unsubscribed, cleanup, find_subscription in *.
  destruct (unsubscribeRef h); simpl; split; try assumption.
  apply find_subscription_filter. assumption.
Qed.

Lemma act_unsubscribed x hd h h' :
  unsubscribed hd h -> act x h = Ok h' -> unsubscribed hd h'.
Proof.
  intros Hin Hact. destruct x as [a text|newId|id tool|n th|n|st];
    simpl in Hact.
  - injection Hact as <-. destruct Hin as [Hnone Hlt].
    unfold unsubscribed, find_subscription in *. simpl. split; [|lia].
    apply find_subscription_snoc; [assumption|]. simpl. lia.
  - injection Hact as <-. unfold switchChat.
    destruct (String.eqb (normalize_chatId newId) (chatId h));
      [assumption|].
    apply cleanup_unsubscribed in Hin. destruct Hin as [Hnone Hlt].
    split; assumption.
  - injection Hact as <-. exact Hin.
  - injection Hact as <-. exact Hin.
  - injection Hact as <-. exact Hin.
  - destruct st as [a hd' ev|]; simpl in Hact.
    + apply deliver_cases in Hact as [->|(s & _ & Hev)]; [exact Hin|].
      eapply handle_event_unsubscribed; eassumption.
    + injection Hact as <-. exact Hin.
Qed.

Lemma run_actions_unsubscribed xs hd h h' :
  unsubscribed hd h -> run_actions xs h = Ok h' -> unsubscribed hd h'.
Proof.
  revert h. induction xs as [|x xs IH]; intros h Hin Hrun; simpl in Hrun.
  - injection Hrun as <-. exact Hin.
  - destruct (act x h) as [h1|e] eqn:Hact; [|discriminate].
    simpl in Hrun. apply (IH h1); [|assumption].
    eapply act_unsubscribed; eassumption.
Qed.

(** C1: the events of a cancelled run are not discarded.  Chat "t1" has a
    run in flight when the chat changes to "t2": the clean-up releases the
    run's subscription (handle 0) and aborts its agent, and the live state
    is emptied.  Of the events of the abandoned run that still reach its
    callbacks, only the run-error named AbortError is swallowed: a
    message-start sets the in-progress message of chat "t2", and another
    run-error appends an error message, stamped with thread "t1", to the
    finalized messages of chat "t2". *)
Theorem cancelled_run_events_reach_new_chat :
  let h := switchChat "t2" running_t1 in
  chatId h = "t2" /\
  find_subscription 0 (world h) = None /\
  aborted (world h) = [0%nat] /\
  messages (live h) = [] /\ message (live h) = None /\
  deliver ambient0 0 (RunErrorEvent "aborted" (Some "AbortError")) h = Ok h /\
  (exists h1,
     deliver ambient0 0 (TextMessageStartEvent "m1") h = Ok h1 /\
     chatId h1 = "t2" /\
     message (live h1) =
       Some (createTextMessageFromAgUiEvent ambient0 "m1" "")) /\
  (exists h2,
     deliver ambient0 0 (RunErrorEvent "boom" None) h = Ok h2 /\
     chatId h2 = "t2" /\
     messages (live h2) = [Some (ErrorMessage "u" 0 "t1" "boom")]).
Proof.
  simpl. split; [evaluate|]. split; [evaluate|]. split; [evaluate|].
  split; [evaluate|]. split; [evaluate|]. split; [evaluate|].
  split; eexists; (split; [evaluate|]); split; evaluate.
Qed.

(** ** Text messages *)

Lemma append_cons c s t : String c s +:+ t = String c (s +:+ t).
Proof. reflexivity. Qed.

Lemma append_assoc s t u : (s +:+ t) +:+ u = s +:+ (t +:+ u).
Proof.
  induction s as [|c s IH]; [reflexivity|].
  rewrite !append_cons, IH. reflexivity.
Qed.

Lemma append_empty_r s : s +:+ "" = s.
Proof.
  induction s as [|c s IH]; [reflexivity|].
  rewrite append_cons, IH. reflexivity.
Qed.

Lemma run_steps_app l1 l2 h :
  run_steps (l1 ++ l2) h = (run_steps l1 h ≫= run_steps l2).
Proof.
  revert h. induction l1 as [|st l1 IH]; intros h; simpl; [reflexivity|].
  destruct (step st h) as [h1|e]; simpl; [apply IH|reflexivity].
Qed.

Lemma content_steps_assembling a hd s mid deltas :
  forall buf h,
    assembling a hd s mid buf h ->
    exists h',
      run_steps (content_steps a hd mid buf deltas) h = Ok h' /\
      assembling a hd s mid (buf +:+ concat_deltas deltas) h' /\
      messages (live h') = messages (live h).
Proof.
  induction deltas as [|d ds IH]; intros buf h Hasm; simpl.
  - exists h. rewrite append_empty_r. auto.
  - destruct Hasm as (Hsub & Hmsg & Href).
    unfold deliver. rewrite Hsub. simpl.
    destruct (IH (buf +:+ d)
                (syncRefs (onTextMessageContentEvent a mid (buf +:+ d) h)))
      as (h' & Hrun & Hasm' & Hms).
    { repeat split; simpl; auto. }
    exists h'. split; [exact Hrun|]. split; [|exact Hms].
    rewrite <- append_assoc. exact Hasm'.
Qed.

(** When a render is committed after message-start and after every
    content event, message-end appends exactly one message, at the tail,
    whose text is the concatenation of the deltas, and clears the
    in-progress message. *)
Lemma text_message_with_renders a hd s mid deltas h :
  find_subscription hd (world h) = Some s ->
  exists h',
    run_steps
      (Deliver a hd (TextMessageStartEvent mid) :: Commit ::
         content_steps a hd mid "" deltas ++
         [Deliver a hd (TextMessageEndEvent mid (concat_deltas deltas))])
      h = Ok h' /\
    messages (live h') =
      messages (live h) ++
        [Some (ChatMessage mid assistant (now a) None
                 [TextPart (concat_deltas deltas)])] /\
    message (live h') = None.
Proof.
  intros Hsub. simpl. unfold deliver at 1. rewrite Hsub. simpl.
  destruct (content_steps_assembling a hd s mid deltas ""
              (syncRefs (onTextMessageStartEvent a mid h)))
    as (h1 & Hrun & (Hsub1 & Hmsg1 & Href1) & Hms1).
  { repeat split; simpl; auto. }
  rewrite run_steps_app, Hrun. simpl.
  unfold deliver. rewrite Hsub1. simpl.
  eexists. split; [reflexivity|]. simpl. rewrite Href1, Hms1.
  split; reflexivity.
Qed.

(** What message-end appends is the ref, whatever the [message] cell
    holds. *)
Lemma onTextMessageEndEvent_appends_ref h :
  messages (live (onTextMessageEndEvent h)) =
    messages (live h) ++ [messageRef h] /\
  message (live (onTextMessageEndEvent h)) = None /\
  runningAgent (live (onTextMessageEndEvent h)) = false.
Proof. repeat split; reflexivity. Qed.

(** C5: message-end appends the value of [messageRef.current], which is
    the in-progress message of the last committed render and not the one
    the latest content event set.  When start, the deltas "Hel" and "lo"
    and end are delivered with no render in between, the ref is still
    null and null is appended; when renders follow start and "Hel" but not
    "lo", the finalized text is "Hel" and not "Hello". *)
Theorem message_end_appends_stale_ref :
  (exists h',
     run_steps
       (Deliver ambient0 0 (TextMessageStartEvent "m1") ::
          content_batch ambient0 0 "m1" "" ["Hel"; "lo"] ++
          [Deliver ambient0 0 (TextMessageEndEvent "m1" "Hello")])
       running_t1 = Ok h' /\
     messages (live h') =
       [Some (ChatMessage "u" user 0 (Some "t1") [TextPart "hi"]); None] /\
     message (live h') = None) /\
  (exists h',
     run_steps
       [Deliver ambient0 0 (TextMessageStartEvent "m1"); Commit;
        Deliver ambient0 0 (TextMessageContentEvent "m1" "Hel" "Hel"); Commit;
        Deliver ambient0 0 (TextMessageContentEvent "m1" "lo" "Hello");
        Deliver ambient0 0 (TextMessageEndEvent "m1" "Hello")]
       running_t1 = Ok h' /\
     messages (live h') =
       [Some (ChatMessage "u" user 0 (Some "t1") [TextPart "hi"]);
        Some (ChatMessage "m1" assistant 0 None [TextPart "Hel"])] /\
     message (live h') = None).
Proof.
  split; eexists; (split; [evaluate|]);
    split; evaluate.
Qed.

(** ** The merged view *)

(** The computation in closed form. *)
Lemma combinedMessages_compute_concat (isLoadingHistory : bool)
    (history : option (list MessageResponse)) (h : Hook) :
  combinedMessages_compute isLoadingHistory history h =
    (if negb isLoadingHistory && bool_decide (default [] history = [])
     then Some <$> initialMessages h else []) ++
    (Some <$> default [] history) ++
    messages (live h) ++
    option_list (Some <$> message (live h)).
Proof.
  unfold combinedMessages_compute.
  assert (Hempty :
    match history with
    | Some hs => (length hs =? 0)%nat
    | None => true
    end = bool_decide (default [] history = [])).
  { destruct history as [[|x hs]|]; reflexivity. }
  rewrite Hempty.
  destruct history as [hs|], (message (live h)) as [m|]; simpl;
    rewrite ?app_nil_r, <- ?app_assoc; reflexivity.
Qed.

(** While no dependency has changed the view is the cached one. *)
Lemma combinedMessages_cached q h c :
  memo_deps c = deps_of q h -> combinedMessages q h (Some c) = c.
Proof.
  intros Heq. unfold combinedMessages.
  destruct (decide (memo_deps c = deps_of q h)); [reflexivity|contradiction].
Qed.

(** The seed messages are no dependency: a change of the seed messages
    alone does not reach the view. *)
Lemma combinedMessages_ignores_seed_change q h c ms :
  memo_deps c = deps_of q h ->
  combinedMessages q (setInitialMessages ms h) (Some c) = c.
Proof. intros Heq. apply combinedMessages_cached. exact Heq. Qed.

(** C8 (as stated, refuted): the seed messages are not dropped when the
    live state becomes non-empty.  At the first render the history is
    loading and the view is empty; the seed message is then set, which
    alone changes no dependency; the history arrives empty and the view is
    the seed; a message is sent, the finalized sequence is no longer
    empty, and the recomputed view still starts with the seed. *)
Lemma seed_shown_beside_live_messages :
  let c0 := combinedMessages history_loading (initial_hook "t1") None in
  let c1 := combinedMessages history_loading seeded_t1 (Some c0) in
  let c2 := combinedMessages history_empty seeded_t1 (Some c1) in
  let h2 := sendMessage ambient0 "hi" seeded_t1 in
  let c3 := combinedMessages history_empty h2 (Some c2) in
  memo_value c0 = [] /\
  c1 = c0 /\
  memo_value c2 = [Some seed1] /\
  messages (live h2) =
    [Some (ChatMessage "u" user 0 (Some "t1") [TextPart "hi"])] /\
  memo_value c3 =
    [Some seed1; Some (ChatMessage "u" user 0 (Some "t1") [TextPart "hi"])].
Proof. repeat split; evaluate. Qed.

(** C8 (amended): whenever the view is computed anew (at the first
    render, or when the history, the finalized messages, the in-progress
    message or the loading flag has changed since the last computation),
    it is the concatenation of the seed messages (if applicable), the
    history, the finalized live messages and the in-progress message (if
    present), and the seed messages are included exactly when the history
    is not loading and is absent or empty, whatever the live state
    holds. *)
Theorem combinedMessages_concat (q : FetchHistory) (h : Hook)
    (cell : option MemoCell) :
  (forall c, cell = Some c -> memo_deps c <> deps_of q h) ->
  memo_value (combinedMessages q h cell) =
    (if negb (isLoading q) && bool_decide (default [] (data q) = [])
     then Some <$> initialMessages h else []) ++
    (Some <$> default [] (data q)) ++
    messages (live h) ++
    option_list (Some <$> message (live h)).
Proof.
  intros Hchanged. unfold combinedMessages.
  destruct cell as [c|]; simpl.
  - destruct (decide (memo_deps c = deps_of q h)) as [Heq|_].
    + exfalso. exact (Hchanged c eq_refl Heq).
    + apply combinedMessages_compute_concat.
  - apply combinedMessages_compute_concat.
Qed.

Lemma combinedMessages_concat_witness :
  let h2 := sendMessage ambient0 "hi" seeded_t1 in
  memo_value (combinedMessages history_empty h2 (Some first_view)) =
    (if negb (isLoading history_empty) &&
        bool_decide (default [] (data history_empty) = [])
     then Some <$> initialMessages h2 else []) ++
    (Some <$> default [] (data history_empty)) ++
    messages (live h2) ++
    option_list (Some <$> message (live h2)).
Proof.
  apply (combinedMessages_concat history_empty
           (sendMessage ambient0 "hi" seeded_t1) (Some first_view)).
  intros c Hc. injection Hc as <-. vm_compute. discriminate.
Defined.

(** ** Tool registration *)

Lemma filter_key_unique {V : Type} (l : list (string * V)) k v :
  NoDup l.*1 -> (k, v) ∈ l ->
  List.filter (fun kv => String.eqb kv.1 k) l = [(k, v)].
Proof.
  induction l as [|[k' v'] l IH]; intros Hnd Hin.
  - apply elem_of_nil in Hin. contradiction.
  - simpl in Hnd. apply NoDup_cons in Hnd as [Hnotin Hnd].
    apply elem_of_cons in Hin as [Heq|Hin].
    + injection Heq as <- <-. simpl. rewrite String.eqb_refl. f_equal.
      clear IH. induction l as [|[k'' v''] l IH]; [reflexivity|].
      simpl in *. apply not_elem_of_cons in Hnotin as [Hne Hnotin].
      apply NoDup_cons in Hnd as [_ Hnd].
      destruct (String.eqb k'' k) eqn:E.
      * apply String.eqb_eq in E. congruence.
      * auto.
    + simpl. destruct (String.eqb k' k) eqn:E.
      * apply String.eqb_eq in E. subst k'. exfalso. apply Hnotin.
        apply list_elem_of_fmap. exists (k, v). auto.
      * auto.
Qed.

Lemma elem_of_enabled_tools (ts : gmap string ToolSerialized) t :
  t ∈ enabled_tools ts <->
  (exists k, ts !! k = Some t) /\ enabled t <> Some false.
Proof.
  unfold enabled_tools. rewrite list_elem_of_In, filter_In, <- list_elem_of_In.
  rewrite list_elem_of_fmap. split.
  - intros [[[k t'] [-> Hin]] Hen]. apply elem_of_map_to_list in Hin.
    split; [eauto|]. unfold is_enabled in Hen. simpl in *.
    destruct (enabled t') as [[|]|]; congruence.
  - intros [[k Hk] Hen]. split.
    + exists (k, t). split; [reflexivity|]. apply elem_of_map_to_list.
      assumption.
    + unfold is_enabled. destruct (enabled t) as [[|]|]; congruence.
Qed.

(** C9: registering a name twice is an upsert: the second descriptor is
    the one found under the name, it is the only entry under that name,
    the registry is the same as if only the second registration had been
    made, and other names are untouched.  The tool list handed to the
    agent when a run starts consists exactly of the registered
    descriptors whose [enabled] is not [false]. *)
Theorem register_twice_then_run (id : string) (d1 d2 : ToolSerialized)
    (a : Ambient) (text : string) (h : Hook) :
  let h2 := registerOrUpdateTool id d2 (registerOrUpdateTool id d1 h) in
  tools h2 !! id = Some d2 /\
  List.filter (fun kv => String.eqb kv.1 id) (map_to_list (tools h2)) =
    [(id, d2)] /\
  h2 = registerOrUpdateTool id d2 h /\
  (forall k, k <> id -> tools h2 !! k = tools h !! k) /\
  last (runs (world (sendMessage a text h2))) =
    Some {| run_agent := agent (world h2); run_input := text;
            run_tools := enabled_tools (tools h2) |} /\
  (forall t, t ∈ enabled_tools (tools h2) <->
             (exists k, tools h2 !! k = Some t) /\ enabled t <> Some false).
Proof.
  simpl. split; [apply lookup_insert_eq|].
  split.
  { apply filter_key_unique; [apply NoDup_fst_map_to_list|].
    apply elem_of_map_to_list. apply lookup_insert_eq. }
  split.
  { unfold registerOrUpdateTool, setTools. simpl.
    rewrite insert_insert_eq. reflexivity. }
  split.
  { intros k Hne. rewrite !lookup_insert_ne by congruence. reflexivity. }
  split; [apply last_snoc|].
  intros t. apply elem_of_enabled_tools.
Qed.

(** ** Tool calls *)

(** C10 (as stated, refuted): a bound handler is not enough for the
    handler branch.  With a handler bound under "ui-alert" but no
    descriptor under that name in [toolsRef], tool-call-end appends the
    generic message and the handler is not invoked; and when a handler
    that is registered and bound raises, the exception leaves the callback
    before any message is appended. *)
Lemma bound_handler_not_invoked_or_raising :
  (let h := updateToolHandler "ui-alert" returning_handler running_t1 in
   exists h',
     deliver ambient0 0 (ToolCallEndEvent "c1" "ui-alert" alert_args) h =
       Ok h' /\
     handler_calls (world h') = [] /\
     messages (live h') =
       messages (live h) ++
         [Some (ChatMessage "c1" assistant 0 None
                  [ToolInvocationPart "ui-alert" alert_args COMPLETE])]) /\
  (let h :=
     syncRefs
       (updateToolHandler "ui-alert" raising_handler
          (registerOrUpdateTool "ui-alert" alert_tool running_t1)) in
   deliver ambient0 0 (ToolCallEndEvent "c1" "ui-alert" alert_args) h =
     Throw "denied").
Proof.
  split.
  - simpl. eexists. split; [evaluate|].
    split; evaluate.
  - vm_compute. reflexivity.
Qed.

(** C10 (amended): for every tool-call-end event whose arguments are
    truthy, exactly one message is appended at the tail of the finalized
    sequence, unless a bound handler raises: (1) if the tool's descriptor
    is in [toolsRef], a handler is bound and its call returns, the handler
    has been invoked with the arguments and the message is a tool
    invocation with status complete; (2) if the descriptor is in
    [toolsRef], no handler is bound and a renderer is, the message is a
    custom widget tagged with the tool name and the arguments;
    (3) otherwise (no descriptor in [toolsRef], or neither a handler nor a
    renderer bound) the message is the generic tool invocation with status
    complete and the raw arguments, and no handler is invoked. *)
Theorem tool_call_end_appends_one (a : Ambient) (chat tid n : string)
    (v : Json) (h : Hook) :
  truthy v = true ->
  (forall d f,
     toolsRef h !! n = Some d ->
     toolHandlersRef h !! n ≫= handler = Some f ->
     f v = Returned ->
     exists h',
       onToolCallEndEvent a chat tid n v h = Ok h' /\
       messages (live h') =
         messages (live h) ++
           [Some (ChatMessage tid assistant (now a) None
                    [ToolInvocationPart n v COMPLETE])] /\
       handler_calls (world h') = handler_calls (world h) ++ [(n, v)]) /\
  (forall d r,
     toolsRef h !! n = Some d ->
     toolHandlersRef h !! n ≫= handler = None ->
     toolHandlersRef h !! n ≫= render = Some r ->
     exists h',
       onToolCallEndEvent a chat tid n v h = Ok h' /\
       messages (live h') =
         messages (live h) ++ [Some (WidgetMessage (uuid a 0) (now a) chat n v)] /\
       handler_calls (world h') = handler_calls (world h)) /\
  (toolsRef h !! n = None \/
   (toolHandlersRef h !! n ≫= handler = None /\
    toolHandlersRef h !! n ≫= render = None) ->
   exists h',
     onToolCallEndEvent a chat tid n v h = Ok h' /\
     messages (live h') =
       messages (live h) ++
         [Some (ChatMessage tid assistant (now a) None
                  [ToolInvocationPart n v COMPLETE])] /\
     handler_calls (world h') = handler_calls (world h)).
Proof.
  intros Hargs. unfold onToolCallEndEvent. rewrite Hargs.
  split; [|split].
  - intros d f Htool Hhandler Hret. rewrite Htool, Hhandler, Hret.
    eexists. split; [reflexivity|]. split; reflexivity.
  - intros d r Htool Hhandler Hrender. rewrite Htool, Hhandler, Hrender.
    eexists. split; [reflexivity|]. split; reflexivity.
  - intros [Hnone|[Hhandler Hrender]].
    + rewrite Hnone. eexists. split; [reflexivity|]. split; reflexivity.
    + rewrite Hhandler, Hrender.
      destruct (toolsRef h !! n); eexists; (split; [reflexivity|]);
        split; reflexivity.
Qed.

Lemma tool_call_end_appends_one_witness :
  let h :=
    syncRefs
      (updateToolHandler "ui-alert" returning_handler
         (registerOrUpdateTool "ui-alert" alert_tool running_t1)) in
  exists h',
    onToolCallEndEvent ambient0 "t1" "c1" "ui-alert" alert_args h = Ok h' /\
    messages (live h') =
      messages (live h) ++
        [Some (ChatMessage "c1" assistant 0 None
                 [ToolInvocationPart "ui-alert" alert_args COMPLETE])] /\
    handler_calls (world h') =
      handler_calls (world h) ++ [("ui-alert", alert_args)].
Proof.
  simpl.
  apply (proj1
    (tool_call_end_appends_one ambient0 "t1" "c1" "ui-alert" alert_args
       (syncRefs
          (updateToolHandler "ui-alert" returning_handler
             (registerOrUpdateTool "ui-alert" alert_tool running_t1)))
       eq_refl)
    alert_tool (fun _ => Returned)).
  - vm_compute. reflexivity.
  - vm_compute. reflexivity.
  - reflexivity.
Defined.

(** ** The scenarios of the specification *)

(** Scenario A: a message is sent and answered in two deltas, with a
    render after every event. *)
Example scenario_A :
  exists h',
    run_steps
      (Deliver ambient0 0 (TextMessageStartEvent "m1") :: Commit ::
         content_steps ambient0 0 "m1" "" ["Hel"; "lo"] ++
         [Deliver ambient0 0 (TextMessageEndEvent "m1" "Hello"); Commit;
          Deliver ambient0 0 RunFinishedEvent])
      running_t1 = Ok h' /\
    memo_value (combinedMessages history_empty h' (Some first_view)) =
      [Some (ChatMessage "u" user 0 (Some "t1") [TextPart "hi"]);
       Some (ChatMessage "m1" assistant 0 None [TextPart "Hello"])] /\
    runningAgent (live h') = false.
Proof.
  eexists. split; [evaluate|].
  split; evaluate.
Qed.

(** Scenario C: progress-start for two steps, then progress-done for the
    first. *)
Example scenario_C :
  exists st1 st2,
    progress_updater
      (progress_start "p1"
         [{| label := "A"; done := false; error := None |};
          {| label := "B"; done := false; error := None |}]) ∅ = Ok st1 /\
    progress_updater (progress_done "p1" 0) st1 = Ok st2 /\
    st2 !! "p1" =
      Some [{| label := "A"; done := true; error := None |};
            {| label := "B"; done := false; error := None |}].
Proof.
  eexists _, _. split; [reflexivity|].
  split; evaluate.
Qed.

(** * Further properties of the hook *)

(** Inversion of a successful callback: the event is split into its
    cases and the resulting hook substituted. *)
Ltac invert_event Hev :=
  repeat match type of Hev with
         | Ok _ = Ok _ => injection Hev as <-
         | Throw _ = Ok _ => discriminate Hev
         | handle_event _ _ ?ev _ = _ => destruct ev; simpl in Hev
         | context [onToolCallEndEvent] => unfold onToolCallEndEvent in Hev
         | context [onCustomEvent] => unfold onCustomEvent in Hev
         | context [mbind _ ?r] => destruct r eqn:?; simpl in Hev
         | context [match ?x with _ => _ end] => destruct x eqn:?
         | _ => progress simpl in Hev
         end.

Ltac split_run_error :=
  try (unfold onRunErrorEvent; destruct (is_abort _)); simpl.

Lemma filter_true {A : Type} (l : list A) : List.filter (fun _ => true) l = l.
Proof. induction l as [|x l IH]; simpl; [|rewrite IH]; reflexivity. Qed.

(** What a callback leaves alone, and the little it does to the world. *)
Lemma handle_event_frame a s ev h h' :
  handle_event a s ev h = Ok h' ->
  chatId h' = chatId h /\ userInput h' = userInput h /\
  tools h' = tools h /\ initialMessages h' = initialMessages h /\
  toolHandlersRef h' = toolHandlersRef h /\
  toolsRef h' = toolsRef h /\ messageRef h' = messageRef h /\
  agent (world h') = agent (world h) /\
  next_agent (world h') = next_agent (world h) /\
  next_handle (world h') = next_handle (world h) /\
  aborted (world h') = aborted (world h) /\
  runs (world h') = runs (world h) /\
  exists p, subscribers (world h') = List.filter p (subscribers (world h)).
Proof.
  intros Hev. invert_event Hev; split_run_error;
    repeat (split; [reflexivity|]);
    first [ exists (fun _ => true); symmetry; apply filter_true
          | eexists; reflexivity ].
Qed.

(** X1: no event removes, reorders or rewrites a finalized message: after
    a delivery that does not raise, the finalized sequence is the old one
    followed by at most one new entry. *)
Theorem deliver_messages_grow (a : Ambient) (hd : nat) (ev : AgUiEvent)
    (h h' : Hook) :
  deliver a hd ev h = Ok h' ->
  exists tail,
    messages (live h') = messages (live h) ++ tail /\
    (length tail <= 1)%nat.
Proof.
  intros Hev. apply deliver_cases in Hev as [->|(s & _ & Hev)].
  { exists []. rewrite app_nil_r. split; [reflexivity|simpl; lia]. }
  invert_event Hev; split_run_error;
    first [ exists []; rewrite app_nil_r; split; [reflexivity|simpl; lia]
          | eexists [_]; split; [reflexivity|simpl; lia] ].
Qed.

Lemma deliver_messages_grow_witness :
  exists tail,
    messages (live (onRunErrorEvent ambient0 "t1" "boom" None running_t1)) =
      messages (live running_t1) ++ tail /\
    (length tail <= 1)%nat.
Proof.
  apply (deliver_messages_grow ambient0 0 (RunErrorEvent "boom" None)
           running_t1).
  evaluate.
Defined.

(** X2: no event touches the tool registry, the handler bindings, the
    input box, the seed messages or the chat identifier, and no event
    starts a run or aborts an agent. *)
Theorem deliver_frame (a : Ambient) (hd : nat) (ev : AgUiEvent)
    (h h' : Hook) :
  deliver a hd ev h = Ok h' ->
  tools h' = tools h /\ toolHandlersRef h' = toolHandlersRef h /\
  userInput h' = userInput h /\ initialMessages h' = initialMessages h /\
  chatId h' = chatId h /\
  runs (world h') = runs (world h) /\
  aborted (world h') = aborted (world h).
Proof.
  intros Hev. apply deliver_cases in Hev as [->|(s & _ & Hev)].
  { repeat split; reflexivity. }
  apply handle_event_frame in Hev. intuition.
Qed.

Lemma deliver_frame_witness :
  let h' := onTextMessageStartEvent ambient0 "m1" running_t1 in
  tools h' = tools running_t1 /\
  toolHandlersRef h' = toolHandlersRef running_t1 /\
  userInput h' = userInput running_t1 /\
  initialMessages h' = initialMessages running_t1 /\
  chatId h' = chatId running_t1 /\
  runs (world h') = runs (world running_t1) /\
  aborted (world h') = aborted (world running_t1).
Proof.
  apply (deliver_frame ambient0 0 (TextMessageStartEvent "m1") running_t1).
  evaluate.
Defined.

(** ** Invariants of reachable hooks *)

Lemma normalize_chatId_nonempty c : normalize_chatId c <> "".
Proof.
  unfold normalize_chatId. destruct (String.eqb c "") eqn:E.
  - discriminate.
  - apply String.eqb_neq in E. exact E.
Qed.

Lemma elem_of_filter_elem {A : Type} (p : A -> bool) (l : list A) x :
  x ∈ List.filter p l -> x ∈ l.
Proof.
  rewrite !list_elem_of_In, filter_In. intros [Hin _]. exact Hin.
Qed.

Lemma NoDup_fmap_filter {A B : Type} (f : A -> B) (p : A -> bool)
    (l : list A) :
  NoDup (f <$> l) -> NoDup (f <$> List.filter p l).
Proof.
  induction l as [|x l IH]; simpl; [auto|].
  intros Hnd. apply NoDup_cons in Hnd as [Hnotin Hnd].
  destruct (p x); simpl; [|auto].
  apply NoDup_cons. split; [|auto].
  intros Hin. apply Hnotin. apply list_elem_of_fmap in Hin as (y & -> & Hy).
  apply list_elem_of_fmap. exists y. split; [reflexivity|].
  eapply elem_of_filter_elem. exact Hy.
Qed.

(** Releasing subscriptions keeps a hook well formed. *)
Lemma well_formed_filter h h' p :
  well_formed h ->
  chatId h' = chatId h ->
  agent (world h') = agent (world h) ->
  next_agent (world h') = next_agent (world h) ->
  next_handle (world h') = next_handle (world h) ->
  aborted (world h') = aborted (world h) ->
  subscribers (world h') = List.filter p (subscribers (world h)) ->
  well_formed h'.
Proof.
  intros (Hid & Hsub & Hnd & Hag & Hab & Hown) Ec Ea Ena Enh Eab Es.
  unfold well_formed. rewrite Ec, Ea, Ena, Enh, Eab, Es.
  repeat split; auto.
  - apply Hsub. eapply elem_of_filter_elem. eassumption.
  - apply Hsub. eapply elem_of_filter_elem. eassumption.
  - apply NoDup_fmap_filter. exact Hnd.
  - intros s Hs. apply Hown. eapply elem_of_filter_elem. eassumption.
Qed.

Lemma well_formed_initial c : well_formed (initial_hook c).
Proof.
  unfold well_formed. simpl. repeat split.
  - apply normalize_chatId_nonempty.
  - apply elem_of_nil in H. contradiction.
  - apply elem_of_nil in H. contradiction.
  - apply NoDup_nil_2.
  - lia.
  - intros x Hx. apply elem_of_nil in Hx. contradiction.
  - intros s Hs. apply elem_of_nil in Hs. contradiction.
Qed.

Lemma well_formed_sendMessage a text h :
  well_formed h -> well_formed (sendMessage a text h).
Proof.
  intros (Hid & Hsub & Hnd & Hag & Hab & Hown).
  unfold well_formed. simpl. repeat split; auto.
  - apply elem_of_app in H as [Hs|Hs].
    + apply Hsub in Hs. lia.
    + apply list_elem_of_singleton in Hs. subst s. simpl. lia.
  - apply elem_of_app in H as [Hs|Hs].
    + apply Hsub in Hs. lia.
    + apply list_elem_of_singleton in Hs. subst s. simpl. lia.
  - rewrite fmap_app. apply NoDup_app. split; [exact Hnd|]. split.
    + intros x Hx Hx'. simpl in Hx'. apply list_elem_of_singleton in Hx'.
      apply list_elem_of_fmap in Hx as (s & -> & Hs). apply Hsub in Hs. lia.
    + simpl. apply NoDup_singleton.
  - intros s Hs. apply elem_of_app in Hs as [Hs|Hs].
    + apply Hown. exact Hs.
    + apply list_elem_of_singleton in Hs. subst s. left. reflexivity.
Qed.

Lemma cleanup_world h :
  exists p,
    subscribers (world (cleanup h)) = List.filter p (subscribers (world h)) /\
    aborted (world (cleanup h)) = aborted (world h) ++ [agent (world h)] /\
    agent (world (cleanup h)) = agent (world h) /\
    next_agent (world (cleanup h)) = next_agent (world h) /\
    next_handle (world (cleanup h)) = next_handle (world h).
Proof.
  unfold cleanup. destruct (unsubscribeRef h) as [hd|]; simpl.
  - eexists. repeat split; reflexivity.
  - exists (fun _ => true). rewrite filter_true. repeat split; reflexivity.
Qed.

(** After a change of chat every subscription that is left belongs to an
    aborted agent. *)
Lemma switchChat_subscribers_aborted newId h s :
  well_formed h ->
  normalize_chatId newId <> chatId h ->
  s ∈ subscribers (world (switchChat newId h)) ->
  sub_agent s ∈ aborted (world (switchChat newId h)) /\
  sub_agent s <> agent (world (switchChat newId h)).
Proof.
  intros (Hid & Hsub & Hnd & Hag & Hab & Hown) Hne.
  rewrite switchChat_changed by assumption.
  destruct (cleanup_world h) as (p & Es & Eab & Ea & Ena & Enh).
  remember (cleanup h) as hc. simpl.
  rewrite Es, Eab, Ena. intros Hs. apply elem_of_filter_elem in Hs.
  split.
  - apply elem_of_app. destruct (Hown s Hs) as [->|Hin]; [right|left].
    + apply list_elem_of_singleton. reflexivity.
    + exact Hin.
  - apply Hsub in Hs. lia.
Qed.

Lemma well_formed_switchChat newId h :
  well_formed h -> well_formed (switchChat newId h).
Proof.
  intros Hwf. unfold switchChat.
  destruct (String.eqb (normalize_chatId newId) (chatId h)) eqn:E;
    [exact Hwf|].
  apply String.eqb_neq in E.
  assert (Hown' : forall s,
    s ∈ subscribers (world (switchChat newId h)) ->
    sub_agent s ∈ aborted (world (switchChat newId h))).
  { intros s Hs. apply switchChat_subscribers_aborted; assumption. }
  rewrite switchChat_changed in Hown' by assumption.
  destruct Hwf as (Hid & Hsub & Hnd & Hag & Hab & Hown).
  destruct (cleanup_world h) as (p & Es & Eab & Ea & Ena & Enh).
  remember (cleanup h) as hc.
  unfold well_formed. simpl in *. rewrite Es, Eab, Ena, Enh in *.
  repeat split.
  - apply normalize_chatId_nonempty.
  - apply elem_of_filter_elem in H. apply Hsub in H. lia.
  - apply elem_of_filter_elem in H. apply Hsub in H. lia.
  - apply NoDup_fmap_filter. exact Hnd.
  - lia.
  - intros x Hx. apply elem_of_app in Hx as [Hx|Hx].
    + apply Hab in Hx. lia.
    + apply list_elem_of_singleton in Hx. lia.
  - intros s Hs. right. apply Hown'. exact Hs.
Qed.

Lemma well_formed_act x h h' :
  well_formed h -> act x h = Ok h' -> well_formed h'.
Proof.
  intros Hwf Hact. destruct x as [a text|newId|id tool|n th|n|st];
    simpl in Hact.
  - injection Hact as <-. apply well_formed_sendMessage. exact Hwf.
  - injection Hact as <-. apply well_formed_switchChat. exact Hwf.
  - injection Hact as <-. exact Hwf.
  - injection Hact as <-. exact Hwf.
  - injection Hact as <-. exact Hwf.
  - destruct st as [a hd ev|]; simpl in Hact.
    + apply deliver_cases in Hact as [->|(s & _ & Hev)]; [exact Hwf|].
      apply handle_event_frame in Hev.
      destruct Hev as (Ec & _ & _ & _ & _ & _ & _ & Ea & Ena & Enh & Eab
                       & _ & p & Es).
      apply (well_formed_filter h h' p); assumption.
    + injection Hact as <-. exact Hwf.
Qed.

Lemma well_formed_run_actions xs h h' :
  well_formed h -> run_actions xs h = Ok h' -> well_formed h'.
Proof.
  revert h. induction xs as [|x xs IH]; intros h Hwf Hrun; simpl in Hrun.
  - injection Hrun as <-. exact Hwf.
  - destruct (act x h) as [h1|e] eqn:Hact; [|discriminate].
    simpl in Hrun. apply (IH h1); [|assumption].
    eapply well_formed_act; eassumption.
Qed.

Lemma well_formed_reachable xs c h :
  run_actions xs (initial_hook c) = Ok h -> well_formed h.
Proof. apply well_formed_run_actions, well_formed_initial. Qed.

(** X3: whatever happens to a mounted hook, its chat identifier is never
    the empty string: an empty identifier is replaced by "main" before it
    is used. *)
Theorem chatId_never_empty (xs : list Action) (c : string) (h : Hook) :
  run_actions xs (initial_hook c) = Ok h -> chatId h <> "".
Proof. intros Hrun. apply (well_formed_reachable xs c h Hrun). Qed.

Lemma chatId_never_empty_witness : chatId (switchChat "" running_t1) <> "".
Proof.
  apply (chatId_never_empty
           [ASend ambient0 "hi"; AStep Commit; ASwitch ""] "t1").
  evaluate.
Defined.

(** X4: the agent of the active chat is never one that was aborted: a
    change of chat aborts the agent it leaves and creates a new one. *)
Theorem current_agent_never_aborted (xs : list Action) (c : string)
    (h : Hook) :
  run_actions xs (initial_hook c) = Ok h ->
  agent (world h) ∉ aborted (world h).
Proof.
  intros Hrun Hin.
  destruct (well_formed_reachable xs c h Hrun) as (_ & _ & _ & _ & Hab & _).
  apply Hab in Hin. lia.
Qed.

Lemma current_agent_never_aborted_witness :
  agent (world (switchChat "t2" running_t1)) ∉
    aborted (world (switchChat "t2" running_t1)).
Proof.
  apply (current_agent_never_aborted
           [ASend ambient0 "hi"; AStep Commit; ASwitch "t2"] "t1").
  evaluate.
Defined.

(** X5: right after a change to another chat, no subscription is attached
    to the agent of the new chat: every subscription that survived the
    clean-up belongs to an agent that has been aborted. *)
Theorem switchChat_leaves_only_aborted_subscriptions (xs : list Action)
    (c newId : string) (h : Hook) (s : Subscription) :
  run_actions xs (initial_hook c) = Ok h ->
  normalize_chatId newId <> chatId h ->
  s ∈ subscribers (world (switchChat newId h)) ->
  sub_agent s ∈ aborted (world (switchChat newId h)) /\
  sub_agent s <> agent (world (switchChat newId h)).
Proof.
  intros Hrun. apply switchChat_subscribers_aborted.
  exact (well_formed_reachable xs c h Hrun).
Qed.

Lemma switchChat_leaves_only_aborted_subscriptions_witness :
  let s := {| sub_handle := 0; sub_agent := 0; sub_chatId := "t1" |} in
  sub_agent s ∈ aborted (world (switchChat "t2" superseded_t1)) /\
  sub_agent s <> agent (world (switchChat "t2" superseded_t1)).
Proof.
  apply (switchChat_leaves_only_aborted_subscriptions two_runs_t1 "t1" "t2"
           superseded_t1
           {| sub_handle := 0; sub_agent := 0; sub_chatId := "t1" |}).
  - evaluate.
  - vm_compute. discriminate.
  - vm_compute. apply list_elem_of_here.
Defined.

(** ** Subscriptions *)

Lemma find_subscription_elem hd w s :
  find_subscription hd w = Some s ->
  s ∈ subscribers w /\ sub_handle s = hd.
Proof.
  unfold find_subscription. intros Hfind. apply find_some in Hfind.
  destruct Hfind as [Hin Heq]. split.
  - apply list_elem_of_In. exact Hin.
  - apply Nat.eqb_eq. exact Heq.
Qed.

Lemma find_subscription_not_elem hd w :
  (forall s, s ∈ subscribers w -> sub_handle s <> hd) ->
  find_subscription hd w = None.
Proof.
  intros Hall. destruct (find_subscription hd w) as [s|] eqn:E;
    [|reflexivity].
  apply find_subscription_elem in E as [Hin Heq].
  exfalso. exact (Hall s Hin Heq).
Qed.

Lemma find_app_l {A : Type} (p : A -> bool) l1 l2 x :
  List.find p l1 = Some x -> List.find p (l1 ++ l2) = Some x.
Proof.
  induction l1 as [|y l1 IH]; simpl; [discriminate|].
  destruct (p y); auto.
Qed.

Lemma find_app_r {A : Type} (p : A -> bool) l1 l2 :
  List.find p l1 = None -> List.find p (l1 ++ l2) = List.find p l2.
Proof.
  induction l1 as [|y l1 IH]; simpl; [reflexivity|].
  destruct (p y); [discriminate|auto].
Qed.

Lemma find_subscription_unsubscribe_other hd hd' w :
  hd <> hd' ->
  find_subscription hd' (unsubscribe hd w) = find_subscription hd' w.
Proof.
  intros Hne. unfold find_subscription, unsubscribe. simpl.
  induction (subscribers w) as [|s l IH]; simpl; [reflexivity|].
  destruct (Nat.eqb (sub_handle s) hd) eqn:E1; simpl.
  - apply Nat.eqb_eq in E1.
    destruct (Nat.eqb (sub_handle s) hd') eqn:E2; [|exact IH].
    apply Nat.eqb_eq in E2. congruence.
  - destruct (Nat.eqb (sub_handle s) hd'); [reflexivity|exact IH].
Qed.

(** X6: [sendMessage] gives its subscription a handle no other
    subscription has: after it the hook remembers the new handle, events
    for that handle reach the new callbacks (which close over the current
    chat and agent), every earlier subscription is still in place, and the
    user's message is the new last finalized message, the input box is
    empty and the running flag set. *)
Theorem sendMessage_subscribes (xs : list Action) (c : string) (h : Hook)
    (a : Ambient) (text : string) :
  run_actions xs (initial_hook c) = Ok h ->
  let h' := sendMessage a text h in
  let hd := next_handle (world h) in
  unsubscribeRef h' = Some hd /\
  find_subscription hd (world h') =
    Some {| sub_handle := hd; sub_agent := agent (world h);
            sub_chatId := chatId h |} /\
  (forall hd0 s0,
     find_subscription hd0 (world h) = Some s0 ->
     find_subscription hd0 (world h') = Some s0) /\
  messages (live h') =
    messages (live h) ++
      [Some (createTextMessageFromUserInput a text (chatId h))] /\
  userInput h' = "" /\ runningAgent (live h') = true.
Proof.
  intros Hrun. apply well_formed_reachable in Hrun.
  destruct Hrun as (_ & Hsub & _). simpl.
  split; [reflexivity|]. split; [|split; [|repeat split; reflexivity]].
  - unfold find_subscription. simpl. rewrite find_app_r.
    + simpl. rewrite Nat.eqb_refl. reflexivity.
    + apply (find_subscription_not_elem (next_handle (world h)) (world h)).
      intros s Hs. apply Hsub in Hs. lia.
  - intros hd0 s0 Hfind. unfold find_subscription in *. simpl.
    apply find_app_l. exact Hfind.
Qed.

Lemma sendMessage_subscribes_witness :
  let h' := sendMessage ambient0 "again" running_t1 in
  unsubscribeRef h' = Some 1%nat /\
  find_subscription 1 (world h') =
    Some {| sub_handle := 1; sub_agent := 0; sub_chatId := "t1" |} /\
  (forall hd0 s0,
     find_subscription hd0 (world running_t1) = Some s0 ->
     find_subscription hd0 (world h') = Some s0) /\
  messages (live h') =
    messages (live running_t1) ++
      [Some (createTextMessageFromUserInput ambient0 "again" "t1")] /\
  userInput h' = "" /\ runningAgent (live h') = true.
Proof.
  apply (sendMessage_subscribes [ASend ambient0 "hi"; AStep Commit] "t1"
           running_t1 ambient0 "again").
  evaluate.
Defined.

(** X7: a run-finished event takes its subscription out of the
    subscriber list for good: whatever happens afterwards, no subscription
    with that handle is in a subscriber list again, so no run started
    later takes it among its subscribers. *)
Theorem finished_handle_stays_unsubscribed (xs0 : list Action) (c : string)
    (h : Hook) (hd : nat) (s : Subscription) (a0 : Ambient) (h1 : Hook)
    (xs : list Action) (h' : Hook) :
  run_actions xs0 (initial_hook c) = Ok h ->
  find_subscription hd (world h) = Some s ->
  deliver a0 hd RunFinishedEvent h = Ok h1 ->
  run_actions xs h1 = Ok h' ->
  find_subscription hd (world h') = None.
Proof.
  intros Hreach Hfind Hfin Hrun.
  apply (run_actions_unsubscribed xs hd h1); [|assumption].
  unfold deliver in Hfin. rewrite Hfind in Hfin. simpl in Hfin.
  injection Hfin as <-.
  apply find_subscription_elem in Hfind as [Hin Heq].
  apply well_formed_reachable in Hreach.
  destruct Hreach as (_ & Hsub & _). apply Hsub in Hin.
  split.
  - simpl. rewrite Heq. apply (find_subscription_unsubscribe hd (world h)).
  - simpl. lia.
Qed.

Lemma finished_handle_stays_unsubscribed_witness :
  exists h',
    run_actions [ASend ambient0 "next"; ASwitch "t2"; ASend ambient0 "more"]
      (onRunFinishedEvent 0 running_t1) = Ok h' /\
    find_subscription 0 (world h') = None.
Proof.
  eexists. split; [evaluate|].
  apply (finished_handle_stays_unsubscribed
           [ASend ambient0 "hi"; AStep Commit]
           "t1" running_t1 0%nat
           {| sub_handle := 0; sub_agent := 0; sub_chatId := "t1" |}
           ambient0 (onRunFinishedEvent 0 running_t1)
           [ASend ambient0 "next"; ASwitch "t2"; ASend ambient0 "more"]).
  - evaluate.
  - evaluate.
  - evaluate.
  - evaluate.
Defined.

(** X8: a run-finished event releases only its own subscription but
    clears the remembered unsubscribe function whichever handle it
    belonged to; any other subscription stays in place, and a change of
    chat that follows does not release it either. *)
Theorem run_finished_keeps_other_subscriptions (h : Hook) (hd hd' : nat)
    (s' : Subscription) (newId : string) :
  hd <> hd' ->
  find_subscription hd' (world h) = Some s' ->
  let h1 := onRunFinishedEvent hd h in
  find_subscription hd' (world h1) = Some s' /\
  unsubscribeRef h1 = None /\
  find_subscription hd' (world (switchChat newId h1)) = Some s'.
Proof.
  intros Hne Hfind. simpl.
  assert (Hkept : find_subscription hd' (world (onRunFinishedEvent hd h))
                  = Some s').
  { simpl. rewrite <- Hfind.
    apply (find_subscription_unsubscribe_other hd hd' (world h) Hne). }
  split; [exact Hkept|]. split; [reflexivity|].
  unfold switchChat.
  destruct (String.eqb (normalize_chatId newId)
              (chatId (onRunFinishedEvent hd h))); [exact Hkept|].
  simpl. rewrite <- Hfind.
  apply (find_subscription_unsubscribe_other hd hd' (world h) Hne).
Qed.

Lemma run_finished_keeps_other_subscriptions_witness :
  let h1 := onRunFinishedEvent 0 superseded_t1 in
  let s' := {| sub_handle := 1; sub_agent := 0; sub_chatId := "t1" |} in
  find_subscription 1 (world h1) = Some s' /\
  unsubscribeRef h1 = None /\
  find_subscription 1 (world (switchChat "t2" h1)) = Some s'.
Proof.
  apply (run_finished_keeps_other_subscriptions superseded_t1 0%nat 1%nat
           {| sub_handle := 1; sub_agent := 0; sub_chatId := "t1" |} "t2").
  - discriminate.
  - evaluate.
Defined.

(** ** The tool registry *)

(** X9: [removeTool] deletes the name from both stores, the descriptors
    and the handler bindings, and from nothing else: afterwards the name
    has no descriptor and no binding and does not resolve, every other
    name has the descriptor and the binding it had and resolves as before,
    removing twice is removing once, and removing a name that is in
    neither store changes nothing. *)
Theorem removeTool_unregisters (n : string) (h : Hook) :
  tools (removeTool n h) = delete n (tools h) /\
  toolHandlersRef (removeTool n h) = delete n (toolHandlersRef h) /\
  tools (removeTool n h) !! n = None /\
  toolHandlersRef (removeTool n h) !! n = None /\
  (forall k, k <> n ->
     tools (removeTool n h) !! k = tools h !! k /\
     toolHandlersRef (removeTool n h) !! k = toolHandlersRef h !! k) /\
  getTool n (removeTool n h) = None /\
  (forall k, k <> n -> getTool k (removeTool n h) = getTool k h) /\
  removeTool n (removeTool n h) = removeTool n h /\
  (tools h !! n = None -> toolHandlersRef h !! n = None ->
   removeTool n h = h) /\
  live (removeTool n h) = live h /\ world (removeTool n h) = world h.
Proof.
  split; [reflexivity|]. split; [reflexivity|].
  split; [apply lookup_delete_eq|]. split; [apply lookup_delete_eq|].
  split.
  { intros k Hne. simpl. rewrite !lookup_delete_ne by congruence.
    split; reflexivity. }
  split; [|split; [|split; [|split]]].
  - unfold getTool. simpl. rewrite lookup_delete_eq. reflexivity.
  - intros k Hne. unfold getTool. simpl.
    rewrite !lookup_delete_ne by congruence. reflexivity.
  - unfold removeTool, set_toolHandlersRef, setTools. simpl.
    rewrite !delete_delete_eq. reflexivity.
  - intros Ht Hh. unfold removeTool, set_toolHandlersRef, setTools. simpl.
    rewrite !delete_id by assumption. destruct h. reflexivity.
  - split; reflexivity.
Qed.

(** X10: a descriptor and a binding can be stored in either order; the
    name resolves to the pair once both are stored and does not resolve
    while one of them is missing. *)
Theorem register_and_bind (n : string) (t : ToolSerialized)
    (th : ToolHandler) (h : Hook) :
  registerOrUpdateTool n t (updateToolHandler n th h) =
    updateToolHandler n th (registerOrUpdateTool n t h) /\
  getTool n (updateToolHandler n th (registerOrUpdateTool n t h)) =
    Some (t, th) /\
  (toolHandlersRef h !! n = None ->
   getTool n (registerOrUpdateTool n t h) = None) /\
  (tools h !! n = None -> getTool n (updateToolHandler n th h) = None).
Proof.
  split; [reflexivity|]. split; [|split].
  - unfold getTool. simpl. rewrite !lookup_insert_eq. reflexivity.
  - intros Hnone. unfold getTool. simpl.
    rewrite lookup_insert_eq, Hnone. reflexivity.
  - intros Hnone. unfold getTool. simpl. rewrite Hnone. reflexivity.
Qed.

Lemma sendMessage_last_run a text h :
  last (runs (world (sendMessage a text h))) =
    Some {| run_agent := agent (world h); run_input := text;
            run_tools := enabled_tools (tools h) |}.
Proof. simpl. apply last_snoc. Qed.

(** X11: a tool that has been removed, or registered again with
    [enabled: false], is not handed to the agent under that name: every
    tool of the next run is a descriptor stored under another name. *)
Theorem removed_or_disabled_tool_not_sent (n : string) (d : ToolSerialized)
    (a : Ambient) (text : string) (h : Hook) (r : RunRequest)
    (t : ToolSerialized) :
  enabled d = Some false ->
  (last (runs (world (sendMessage a text (removeTool n h)))) = Some r \/
   last (runs (world (sendMessage a text (registerOrUpdateTool n d h))))
     = Some r) ->
  t ∈ run_tools r ->
  exists k, k <> n /\ tools h !! k = Some t.
Proof.
  intros Hd Hlast Hin.
  destruct Hlast as [Hlast|Hlast]; rewrite sendMessage_last_run in Hlast;
    injection Hlast as <-; simpl in Hin;
    apply elem_of_enabled_tools in Hin as [[k Hk] Hen]; exists k.
  - destruct (decide (k = n)) as [->|Hne].
    + rewrite lookup_delete_eq in Hk. discriminate.
    + rewrite lookup_delete_ne in Hk by congruence. auto.
  - destruct (decide (k = n)) as [->|Hne].
    + rewrite lookup_insert_eq in Hk. injection Hk as <-. contradiction.
    + rewrite lookup_insert_ne in Hk by congruence. auto.
Qed.

Lemma removed_or_disabled_tool_not_sent_witness :
  exists k, k <> "ui-alert" /\ tools two_tools_t1 !! k = Some weather_tool.
Proof.
  apply (removed_or_disabled_tool_not_sent "ui-alert" disabled_tool
           ambient0 "hi" two_tools_t1
           {| run_agent := 0; run_input := "hi";
              run_tools := [weather_tool] |}
           weather_tool).
  - reflexivity.
  - left. evaluate.
  - apply list_elem_of_here.
Defined.

(** ** Progress events *)

Lemma progress_updater_start e st :
  ce_name e = "progress-start" ->
  progress_updater e st = Ok (<[v_id (ce_value e) := v_steps (ce_value e)]> st).
Proof.
  intros Hn. unfold progress_updater, isProgressStart. rewrite Hn.
  reflexivity.
Qed.

Lemma progress_updater_done e st :
  ce_name e = "progress-done" ->
  progress_updater e st =
    update_track (v_id (ce_value e)) (v_step (ce_value e)) mark_done st.
Proof.
  intros Hn.
  unfold progress_updater, isProgressStart, isProgressDone. rewrite Hn.
  reflexivity.
Qed.

Lemma progress_updater_error e st :
  ce_name e = "progress-error" ->
  progress_updater e st =
    update_track (v_id (ce_value e)) (v_step (ce_value e))
      (mark_error (v_message (ce_value e))) st.
Proof.
  intros Hn.
  unfold progress_updater, isProgressStart, isProgressDone, isProgressError.
  rewrite Hn. reflexivity.
Qed.

Lemma with_live_setProgress_id h :
  with_live (setProgress (progress (live h))) h = h.
Proof. destruct h as [? [] ? ? ? ? ? ? ? ? ?]. reflexivity. Qed.

(** X12: progress-start stores the given steps under the given id,
    whether or not a track was there (an existing track and its markings
    are replaced); it never raises and leaves every other track and the
    rest of the live state as they were. *)
Theorem progress_start_creates_or_replaces (e : CustomEvent) (h : Hook) :
  ce_name e = "progress-start" ->
  exists h',
    onCustomEvent e h = Ok h' /\
    progress (live h') !! v_id (ce_value e) = Some (v_steps (ce_value e)) /\
    (forall id', id' <> v_id (ce_value e) ->
                 progress (live h') !! id' = progress (live h) !! id') /\
    messages (live h') = messages (live h) /\
    message (live h') = message (live h) /\
    state (live h') = state (live h) /\
    runningAgent (live h') = runningAgent (live h).
Proof.
  intros Hn. unfold onCustomEvent. rewrite progress_updater_start by exact Hn.
  eexists. split; [reflexivity|]. simpl.
  split; [apply lookup_insert_eq|]. split; [|repeat split; reflexivity].
  intros id' Hne. apply lookup_insert_ne. congruence.
Qed.

Lemma progress_start_creates_or_replaces_witness :
  exists h',
    onCustomEvent
      (progress_start "p1" [{| label := "A"; done := false; error := None |}])
      running_t1 = Ok h' /\
    progress (live h') !! "p1" =
      Some [{| label := "A"; done := false; error := None |}] /\
    (forall id', id' <> "p1" ->
                 progress (live h') !! id' = progress (live running_t1) !! id') /\
    messages (live h') = messages (live running_t1) /\
    message (live h') = message (live running_t1) /\
    state (live h') = state (live running_t1) /\
    runningAgent (live h') = runningAgent (live running_t1).
Proof.
  apply (progress_start_creates_or_replaces
           (progress_start "p1"
              [{| label := "A"; done := false; error := None |}])
           running_t1).
  reflexivity.
Defined.

(** What marking a step that exists does to the mapping. *)
Lemma update_track_marks id step f (st : gmap string (list ProgressStep))
    steps (i : nat) s :
  st !! id = Some steps ->
  step = Z.of_nat i ->
  steps !! i = Some s ->
  exists st' steps',
    update_track id step f st = Ok st' /\
    st' !! id = Some steps' /\
    length steps' = length steps /\
    steps' !! i = Some (f s) /\
    (forall j, j <> i -> steps' !! j = steps !! j) /\
    (forall id', id' <> id -> st' !! id' = st !! id').
Proof.
  intros Hid Hstep Hi. unfold update_track. rewrite Hid.
  eexists _, _. split; [reflexivity|].
  split; [apply lookup_insert_eq|]. split; [apply map_step_length|].
  split; [|split].
  - rewrite map_step_lookup, Hi. simpl.
    destruct (decide (step = Z.of_nat i)); [reflexivity|contradiction].
  - intros j Hne. rewrite map_step_lookup.
    destruct (steps !! j); simpl; [|reflexivity].
    destruct (decide (step = Z.of_nat j)); [lia|reflexivity].
  - intros id' Hne. apply lookup_insert_ne. congruence.
Qed.

(** X13: progress-done for a step that exists sets [done] on that step
    and keeps its label and error; the track keeps its length, every
    other step of the track and every other track are unchanged. *)
Theorem progress_done_marks_one_step (e : CustomEvent) (h : Hook)
    (steps : list ProgressStep) (i : nat) (s : ProgressStep) :
  ce_name e = "progress-done" ->
  progress (live h) !! v_id (ce_value e) = Some steps ->
  v_step (ce_value e) = Z.of_nat i ->
  steps !! i = Some s ->
  exists h' steps',
    onCustomEvent e h = Ok h' /\
    progress (live h') !! v_id (ce_value e) = Some steps' /\
    length steps' = length steps /\
    steps' !! i = Some {| label := label s; done := true; error := error s |} /\
    (forall j, j <> i -> steps' !! j = steps !! j) /\
    (forall id', id' <> v_id (ce_value e) ->
                 progress (live h') !! id' = progress (live h) !! id').
Proof.
  intros Hn Hid Hstep Hi. unfold onCustomEvent.
  rewrite progress_updater_done by exact Hn.
  destruct (update_track_marks _ _ mark_done _ _ _ _ Hid Hstep Hi)
    as (st' & steps' & -> & Hrest).
  exists (with_live (setProgress st') h), steps'.
  split; [reflexivity|]. exact Hrest.
Qed.

(** X14: progress-error for a step that exists stores the message as the
    step's error and keeps its label and its [done] flag; the track keeps
    its length, every other step and every other track are unchanged. *)
Theorem progress_error_marks_one_step (e : CustomEvent) (h : Hook)
    (steps : list ProgressStep) (i : nat) (s : ProgressStep) :
  ce_name e = "progress-error" ->
  progress (live h) !! v_id (ce_value e) = Some steps ->
  v_step (ce_value e) = Z.of_nat i ->
  steps !! i = Some s ->
  exists h' steps',
    onCustomEvent e h = Ok h' /\
    progress (live h') !! v_id (ce_value e) = Some steps' /\
    length steps' = length steps /\
    steps' !! i =
      Some {| label := label s; done := done s;
              error := Some (v_message (ce_value e)) |} /\
    (forall j, j <> i -> steps' !! j = steps !! j) /\
    (forall id', id' <> v_id (ce_value e) ->
                 progress (live h') !! id' = progress (live h) !! id').
Proof.
  intros Hn Hid Hstep Hi. unfold onCustomEvent.
  rewrite progress_updater_error by exact Hn.
  destruct (update_track_marks _ _ (mark_error (v_message (ce_value e)))
              _ _ _ _ Hid Hstep Hi)
    as (st' & steps' & -> & Hrest).
  exists (with_live (setProgress st') h), steps'.
  split; [reflexivity|]. exact Hrest.
Qed.

Lemma progress_done_marks_one_step_witness :
  exists h' steps',
    onCustomEvent (progress_done "p1" 1) tracking_t1 = Ok h' /\
    progress (live h') !! "p1" = Some steps' /\
    length steps' = length two_steps /\
    steps' !! 1%nat = Some {| label := "B"; done := true; error := None |} /\
    (forall j, j <> 1%nat -> steps' !! j = two_steps !! j) /\
    (forall id', id' <> "p1" ->
                 progress (live h') !! id' = progress (live tracking_t1) !! id').
Proof.
  apply (progress_done_marks_one_step (progress_done "p1" 1) tracking_t1
           two_steps 1%nat {| label := "B"; done := false; error := None |}).
  - reflexivity.
  - evaluate.
  - reflexivity.
  - reflexivity.
Defined.

Lemma progress_error_marks_one_step_witness :
  exists h' steps',
    onCustomEvent (progress_error "p1" 0 "timeout") tracking_t1 = Ok h' /\
    progress (live h') !! "p1" = Some steps' /\
    length steps' = length two_steps /\
    steps' !! 0%nat =
      Some {| label := "A"; done := false; error := Some "timeout" |} /\
    (forall j, j <> 0%nat -> steps' !! j = two_steps !! j) /\
    (forall id', id' <> "p1" ->
                 progress (live h') !! id' = progress (live tracking_t1) !! id').
Proof.
  apply (progress_error_marks_one_step (progress_error "p1" 0 "timeout")
           tracking_t1 two_steps 0%nat
           {| label := "A"; done := false; error := None |}).
  - reflexivity.
  - evaluate.
  - reflexivity.
  - reflexivity.
Defined.

Lemma map_step_commute s1 f1 s2 f2 (steps : list ProgressStep) :
  (forall x, f1 (f2 x) = f2 (f1 x)) ->
  map_step s2 f2 (map_step s1 f1 steps) =
  map_step s1 f1 (map_step s2 f2 steps).
Proof.
  intros Hcomm. apply list_eq. intros i. rewrite !map_step_lookup.
  destruct (steps !! i) as [x|]; simpl; [|reflexivity].
  destruct (decide (s1 = Z.of_nat i)), (decide (s2 = Z.of_nat i));
    rewrite ?Hcomm; reflexivity.
Qed.

Lemma map_step_idempotent s f (steps : list ProgressStep) :
  (forall x, f (f x) = f x) ->
  map_step s f (map_step s f steps) = map_step s f steps.
Proof.
  intros Hidem. apply list_eq. intros i. rewrite !map_step_lookup.
  destruct (steps !! i) as [x|]; simpl; [|reflexivity].
  destruct (decide (s = Z.of_nat i)); rewrite ?Hidem; reflexivity.
Qed.

Lemma update_track_commute id1 s1 f1 id2 s2 f2
    (st : gmap string (list ProgressStep)) :
  (forall x, f1 (f2 x) = f2 (f1 x)) ->
  (update_track id1 s1 f1 st ≫= update_track id2 s2 f2) =
  (update_track id2 s2 f2 st ≫= update_track id1 s1 f1).
Proof.
  intros Hcomm. unfold update_track.
  destruct (decide (id1 = id2)) as [->|Hne].
  - destruct (st !! id2) as [steps|] eqn:E; simpl; [|reflexivity].
    rewrite !lookup_insert_eq, !insert_insert_eq.
    rewrite (map_step_commute s1 f1 s2 f2 steps Hcomm). reflexivity.
  - destruct (st !! id1) as [t1|] eqn:E1, (st !! id2) as [t2|] eqn:E2; simpl;
      rewrite ?lookup_insert_ne by congruence; rewrite ?E1, ?E2;
      try reflexivity.
    rewrite insert_insert_ne by congruence. reflexivity.
Qed.

(** X15: a progress-done event commutes with any other progress-done or
    progress-error event: whichever of the two is handled first, the
    progress mapping ends the same (and if one of them raises because its
    track is missing, so does the pair in either order). *)
Theorem progress_done_commutes (e1 e2 : CustomEvent)
    (st : gmap string (list ProgressStep)) :
  ce_name e1 = "progress-done" ->
  ce_name e2 = "progress-done" \/ ce_name e2 = "progress-error" ->
  (progress_updater e1 st ≫= progress_updater e2) =
  (progress_updater e2 st ≫= progress_updater e1).
Proof.
  intros H1 [H2|H2].
  - rewrite (progress_updater_done e1 st H1), (progress_updater_done e2 st H2).
    transitivity
      (update_track (v_id (ce_value e1)) (v_step (ce_value e1)) mark_done st
         ≫= update_track (v_id (ce_value e2)) (v_step (ce_value e2)) mark_done).
    { destruct (update_track _ _ mark_done st); simpl;
        [apply progress_updater_done; exact H2|reflexivity]. }
    rewrite update_track_commute by reflexivity.
    destruct (update_track (v_id (ce_value e2)) _ mark_done st); simpl;
      [symmetry; apply progress_updater_done; exact H1|reflexivity].
  - rewrite (progress_updater_done e1 st H1), (progress_updater_error e2 st H2).
    transitivity
      (update_track (v_id (ce_value e1)) (v_step (ce_value e1)) mark_done st
         ≫= update_track (v_id (ce_value e2)) (v_step (ce_value e2))
              (mark_error (v_message (ce_value e2)))).
    { destruct (update_track _ _ mark_done st); simpl;
        [apply progress_updater_error; exact H2|reflexivity]. }
    rewrite update_track_commute by reflexivity.
    destruct (update_track (v_id (ce_value e2)) _ _ st); simpl;
      [symmetry; apply progress_updater_done; exact H1|reflexivity].
Qed.

Lemma progress_done_commutes_witness :
  (progress_updater (progress_done "p1" 0) (<["p1" := two_steps]> ∅)
     ≫= progress_updater (progress_error "p1" 0 "late")) =
  (progress_updater (progress_error "p1" 0 "late") (<["p1" := two_steps]> ∅)
     ≫= progress_updater (progress_done "p1" 0)).
Proof.
  apply (progress_done_commutes (progress_done "p1" 0)
           (progress_error "p1" 0 "late")).
  - reflexivity.
  - right. reflexivity.
Defined.

(** X16: a progress-done or progress-error event that arrives a second
    time has no further effect: handled in the state its first handling
    produced, it returns that state. *)
Theorem progress_mark_idempotent (e : CustomEvent)
    (st st1 : gmap string (list ProgressStep)) :
  ce_name e = "progress-done" \/ ce_name e = "progress-error" ->
  progress_updater e st = Ok st1 ->
  progress_updater e st1 = Ok st1.
Proof.
  assert (Hgen : forall id s f,
    (forall x, f (f x) = f x) ->
    update_track id s f st = Ok st1 -> update_track id s f st1 = Ok st1).
  { intros id s f Hidem. unfold update_track.
    destruct (st !! id) as [steps|]; [|discriminate].
    intros [= <-]. rewrite lookup_insert_eq, insert_insert_eq.
    rewrite map_step_idempotent by exact Hidem. reflexivity. }
  intros [Hn|Hn].
  - rewrite !(progress_updater_done e) by exact Hn. apply Hgen. reflexivity.
  - rewrite !(progress_updater_error e) by exact Hn. apply Hgen. reflexivity.
Qed.

Lemma progress_mark_idempotent_witness :
  progress_updater (progress_done "p1" 0)
    (<["p1" := [{| label := "A"; done := true; error := None |};
                {| label := "B"; done := false; error := None |}]]> ∅) =
  Ok (<["p1" := [{| label := "A"; done := true; error := None |};
                 {| label := "B"; done := false; error := None |}]]> ∅).
Proof.
  apply (progress_mark_idempotent (progress_done "p1" 0)
           (<["p1" := two_steps]> ∅)).
  - left. reflexivity.
  - evaluate.
Defined.

(** X17: a custom event that names no step changes nothing: an event
    with an unrecognised name is ignored, and a progress-done or
    progress-error event whose track exists but whose index is negative or
    past the end of the track leaves the hook as it is. *)
Theorem custom_event_without_target_is_ignored (e : CustomEvent) (h : Hook) :
  (ce_name e <> "progress-start" /\ ce_name e <> "progress-done" /\
   ce_name e <> "progress-error") \/
  ((ce_name e = "progress-done" \/ ce_name e = "progress-error") /\
   exists steps,
     progress (live h) !! v_id (ce_value e) = Some steps /\
     (v_step (ce_value e) < 0 \/
      Z.of_nat (length steps) <= v_step (ce_value e))) ->
  onCustomEvent e h = Ok h.
Proof.
  intros [(Hs & Hd & He)|(Hn & steps & Hid & Hrange)]; unfold onCustomEvent.
  - unfold progress_updater, isProgressStart, isProgressDone, isProgressError.
    apply String.eqb_neq in Hs, Hd, He. rewrite Hs, Hd, He. simpl.
    rewrite with_live_setProgress_id. reflexivity.
  - assert (Hupd : progress_updater e (progress (live h))
                   = Ok (progress (live h))).
    { destruct Hn as [Hn|Hn].
      - rewrite progress_updater_done by exact Hn.
        eapply update_track_out_of_range; eassumption.
      - rewrite progress_updater_error by exact Hn.
        eapply update_track_out_of_range; eassumption. }
    rewrite Hupd. simpl. rewrite with_live_setProgress_id. reflexivity.
Qed.

Lemma custom_event_without_target_is_ignored_witness :
  onCustomEvent (progress_done "p1" 2) tracking_t1 = Ok tracking_t1.
Proof.
  apply (custom_event_without_target_is_ignored (progress_done "p1" 2)
           tracking_t1).
  right. split; [left; reflexivity|].
  exists two_steps. split; [evaluate|]. right. simpl. lia.
Defined.

(** ** Changing the chat, continued *)

Lemma cleanup_frame h :
  tools (cleanup h) = tools h /\
  toolHandlersRef (cleanup h) = toolHandlersRef h /\
  userInput (cleanup h) = userInput h /\
  initialMessages (cleanup h) = initialMessages h /\
  live (cleanup h) = live h /\
  runs (world (cleanup h)) = runs (world h) /\
  handler_calls (world (cleanup h)) = handler_calls (world h) /\
  refetchChats_calls (world (cleanup h)) = refetchChats_calls (world h).
Proof.
  unfold cleanup. destruct (unsubscribeRef h); simpl; repeat split; reflexivity.
Qed.

(** X18: a change of chat keeps what is not part of the live state: the
    registered tools, the handler bindings, the text in the input box and
    the seed messages are those of the chat that was left, no run is
    started and the chat list is not refetched. *)
Theorem switchChat_frame (newId : string) (h : Hook) :
  let h' := switchChat newId h in
  tools h' = tools h /\ toolHandlersRef h' = toolHandlersRef h /\
  userInput h' = userInput h /\ initialMessages h' = initialMessages h /\
  runs (world h') = runs (world h) /\
  refetchChats_calls (world h') = refetchChats_calls (world h).
Proof.
  simpl. unfold switchChat.
  destruct (String.eqb (normalize_chatId newId) (chatId h));
    [repeat split; reflexivity|].
  destruct (cleanup_frame h) as (Ht & Hh & Hu & Hi & _ & Hr & _ & Hf).
  remember (cleanup h) as hc. simpl. auto 10.
Qed.

Lemma normalize_chatId_idempotent c :
  normalize_chatId (normalize_chatId c) = normalize_chatId c.
Proof.
  unfold normalize_chatId. destruct (String.eqb c "") eqn:E; [reflexivity|].
  rewrite E. reflexivity.
Qed.

Lemma chatId_switchChat newId h :
  chatId (switchChat newId h) = normalize_chatId newId.
Proof.
  unfold switchChat.
  destruct (String.eqb (normalize_chatId newId) (chatId h)) eqn:E.
  - apply String.eqb_eq in E. congruence.
  - reflexivity.
Qed.

(** X19: changing to the chat that is already active does nothing, so
    changing twice to the same chat is changing once; the empty
    identifier stands for "main". *)
Theorem switchChat_idempotent (newId : string) (h : Hook) :
  switchChat newId (switchChat newId h) = switchChat newId h /\
  switchChat "" h = switchChat "main" h /\
  (normalize_chatId newId = chatId h -> switchChat newId h = h).
Proof.
  split; [|split].
  - unfold switchChat at 1. rewrite chatId_switchChat, String.eqb_refl.
    reflexivity.
  - reflexivity.
  - intros Heq. unfold switchChat. rewrite Heq, String.eqb_refl. reflexivity.
Qed.

(** ** Text messages, continued *)

(** X20: when a render is committed between a content event and the
    message-end that follows it, message-end moves that event's message
    from the in-progress slot to the tail of the finalized sequence and
    clears the running flag. *)
Theorem message_end_after_render (a1 a2 : Ambient) (hd : nat)
    (s : Subscription) (mid d buf mid' buf' : string) (h : Hook) :
  find_subscription hd (world h) = Some s ->
  exists h',
    run_steps
      [Deliver a1 hd (TextMessageContentEvent mid d buf); Commit;
       Deliver a2 hd (TextMessageEndEvent mid' buf')] h = Ok h' /\
    messages (live h') =
      messages (live h) ++
        [Some (createTextMessageFromAgUiEvent a1 mid buf)] /\
    message (live h') = None /\
    runningAgent (live h') = false.
Proof.
  intros Hsub. simpl. unfold deliver. rewrite Hsub. simpl. rewrite Hsub.
  simpl. eexists. split; [reflexivity|]. repeat split; reflexivity.
Qed.

Lemma message_end_after_render_witness :
  exists h',
    run_steps
      [Deliver ambient0 0 (TextMessageContentEvent "m1" "lo" "Hello"); Commit;
       Deliver ambient0 0 (TextMessageEndEvent "m1" "Hello")] running_t1
      = Ok h' /\
    messages (live h') =
      messages (live running_t1) ++
        [Some (createTextMessageFromAgUiEvent ambient0 "m1" "Hello")] /\
    message (live h') = None /\
    runningAgent (live h') = false.
Proof.
  apply (message_end_after_render ambient0 ambient0 0%nat
           {| sub_handle := 0; sub_agent := 0; sub_chatId := "t1" |}
           "m1" "lo" "Hello" "m1" "Hello" running_t1).
  evaluate.
Defined.

(** ** [useAgUiTool] *)

Lemma getTool_mount t h :
  getTool (ui_name t) (useAgUiTool_mount t h) =
    Some (tool_descriptor t, tool_binding t).
Proof. unfold getTool. simpl. rewrite !lookup_insert_eq. reflexivity. Qed.

(** X21: a tool that a component mounts resolves under its prefixed name
    to the descriptor and the binding built from the component's
    argument, and it is among the tools handed to the agent by the next
    [sendMessage] exactly when its [enabled] is not [false]. *)
Theorem useAgUiTool_mount_registers (t : Tool) (a : Ambient)
    (text : string) (h : Hook) :
  let h1 := useAgUiTool_mount t h in
  getTool (ui_name t) h1 = Some (tool_descriptor t, tool_binding t) /\
  name (tool_descriptor t) = "ui-" +:+ tool_name t /\
  (exists r,
     last (runs (world (sendMessage a text h1))) = Some r /\
     (tool_enabled t <> Some false -> tool_descriptor t ∈ run_tools r) /\
     (tool_enabled t = Some false ->
      forall d, d ∈ run_tools r -> exists k,
        k <> ui_name t /\ tools h !! k = Some d)).
Proof.
  simpl. split; [apply getTool_mount|]. split; [reflexivity|].
  eexists. split; [apply last_snoc|]. simpl. split.
  - intros Hen. apply elem_of_enabled_tools. split; [|exact Hen].
    exists (ui_name t). apply lookup_insert_eq.
  - intros Hdis d Hd. apply elem_of_enabled_tools in Hd as [[k Hk] Hen].
    exists k. destruct (decide (k = ui_name t)) as [->|Hne].
    + rewrite lookup_insert_eq in Hk. injection Hk as <-.
      simpl in Hen. contradiction.
    + rewrite lookup_insert_ne in Hk by congruence. auto.
Qed.

(** X22: unmounting removes what mounting stored: afterwards the
    prefixed name does not resolve and has no descriptor, every other
    name resolves as before the mount, the live state is untouched, and
    if the name was in neither store before the mount the hook is back to
    what it was. *)
Theorem useAgUiTool_mount_unmount (t : Tool) (h : Hook) :
  let h1 := useAgUiTool_unmount t (useAgUiTool_mount t h) in
  getTool (ui_name t) h1 = None /\
  tools h1 !! ui_name t = None /\
  (forall k, k <> ui_name t -> getTool k h1 = getTool k h) /\
  live h1 = live h /\
  (tools h !! ui_name t = None -> toolHandlersRef h !! ui_name t = None ->
   h1 = h).
Proof.
  simpl. split; [|split; [|split; [|split]]].
  - unfold getTool. simpl. rewrite lookup_delete_eq. reflexivity.
  - simpl. apply lookup_delete_eq.
  - intros k Hne. unfold getTool. simpl.
    rewrite !lookup_delete_ne, !lookup_insert_ne by congruence. reflexivity.
  - reflexivity.
  - intros Ht Hh.
    unfold useAgUiTool_unmount, useAgUiTool_mount, removeTool,
      updateToolHandler, registerOrUpdateTool, set_toolHandlersRef, setTools.
    simpl. rewrite !delete_insert_id by assumption.
    destruct h. reflexivity.
Qed.

Lemma delete_key_fields k fields :
  delete_key k (JObj fields) =
    JObj (List.filter (fun kv => negb (String.eqb kv.1 k)) fields).
Proof. reflexivity. Qed.

(** X23: the schema registered for a tool is the one zod produced
    without its top-level [$schema] and [additionalProperties] entries:
    every other entry is kept, in its place, and these two are gone. *)
Theorem tool_parameters_cleaned (t : Tool) (fields : list (string * Json)) :
  tool_schema t = JObj fields ->
  exists fields',
    tool_parameters t = JObj fields' /\
    fields' =
      List.filter
        (fun kv => negb (String.eqb kv.1 "$schema") &&
                   negb (String.eqb kv.1 "additionalProperties"))
        fields /\
    (forall k v, (k, v) ∈ fields' <->
                 (k, v) ∈ fields /\ k <> "$schema" /\
                 k <> "additionalProperties").
Proof.
  intros Hs. unfold tool_parameters. rewrite Hs, !delete_key_fields.
  eexists. split; [reflexivity|].
  assert (Hfilter : forall l : list (string * Json),
    List.filter (fun kv => negb (String.eqb kv.1 "additionalProperties"))
      (List.filter (fun kv => negb (String.eqb kv.1 "$schema")) l) =
    List.filter
      (fun kv => negb (String.eqb kv.1 "$schema") &&
                 negb (String.eqb kv.1 "additionalProperties")) l).
  { induction l as [|kv l IH]; simpl; [reflexivity|].
    destruct (String.eqb kv.1 "$schema"); simpl; [exact IH|].
    destruct (String.eqb kv.1 "additionalProperties"); simpl;
      [exact IH|rewrite IH; reflexivity]. }
  split; [apply Hfilter|].
  intros k v. rewrite Hfilter, list_elem_of_In, filter_In, <- list_elem_of_In.
  simpl. rewrite andb_true_iff, !negb_true_iff, !String.eqb_neq.
  reflexivity.
Qed.

Lemma tool_parameters_cleaned_witness :
  exists fields',
    tool_parameters weather_widget = JObj fields' /\
    fields' =
      List.filter
        (fun kv => negb (String.eqb kv.1 "$schema") &&
                   negb (String.eqb kv.1 "additionalProperties"))
        [("$schema", JStr "https://json-schema.org/draft/2020-12/schema");
         ("type", JStr "object");
         ("properties", JObj [("location", JObj [("type", JStr "string")])]);
         ("additionalProperties", JBool false)] /\
    (forall k v, (k, v) ∈ fields' <->
                 (k, v) ∈
                   [("$schema",
                     JStr "https://json-schema.org/draft/2020-12/schema");
                    ("type", JStr "object");
                    ("properties",
                     JObj [("location", JObj [("type", JStr "string")])]);
                    ("additionalProperties", JBool false)] /\
                 k <> "$schema" /\ k <> "additionalProperties").
Proof.
  apply (tool_parameters_cleaned weather_widget). reflexivity.
Defined.

(** X24: the effect that rebinds the handlers replaces the binding only:
    the descriptors, and with them the tools the next run hands to the
    agent, are unchanged, the name resolves to its old descriptor with the
    new binding, and other names resolve as before. *)
Theorem useAgUiTool_rebind_keeps_descriptor (t : Tool) (h : Hook) :
  let h1 := useAgUiTool_rebind t h in
  tools h1 = tools h /\
  enabled_tools (tools h1) = enabled_tools (tools h) /\
  (forall d, tools h !! ui_name t = Some d ->
             getTool (ui_name t) h1 = Some (d, tool_binding t)) /\
  (forall k, k <> ui_name t -> getTool k h1 = getTool k h) /\
  live h1 = live h.
Proof.
  simpl. split; [reflexivity|]. split; [reflexivity|].
  split; [|split; [|reflexivity]].
  - intros d Hd. unfold getTool. simpl. rewrite Hd, lookup_insert_eq.
    reflexivity.
  - intros k Hne. unfold getTool. simpl.
    rewrite lookup_insert_ne by congruence. reflexivity.
Qed.

Lemma ui_name_inj t1 t2 : ui_name t1 = ui_name t2 -> tool_name t1 = tool_name t2.
Proof. unfold ui_name. intros Heq. injection Heq as Heq. exact Heq. Qed.

(** X25: tools with different names do not get in each other's way: when
    two are mounted, each resolves to its own descriptor and binding. *)
Theorem useAgUiTool_distinct_names (t1 t2 : Tool) (h : Hook) :
  tool_name t1 <> tool_name t2 ->
  let h2 := useAgUiTool_mount t2 (useAgUiTool_mount t1 h) in
  getTool (ui_name t1) h2 = Some (tool_descriptor t1, tool_binding t1) /\
  getTool (ui_name t2) h2 = Some (tool_descriptor t2, tool_binding t2).
Proof.
  intros Hne. simpl.
  assert (Hui : ui_name t2 <> ui_name t1).
  { intros Heq. apply Hne. symmetry. apply ui_name_inj. exact Heq. }
  split.
  - unfold getTool. simpl.
    rewrite lookup_insert_ne, lookup_insert_eq by exact Hui.
    rewrite lookup_insert_ne, lookup_insert_eq by exact Hui. reflexivity.
  - apply getTool_mount.
Qed.

Lemma useAgUiTool_distinct_names_witness :
  let h2 :=
    useAgUiTool_mount weather_widget
      (useAgUiTool_mount alert_action (initial_hook "t1")) in
  getTool (ui_name alert_action) h2 =
    Some (tool_descriptor alert_action, tool_binding alert_action) /\
  getTool (ui_name weather_widget) h2 =
    Some (tool_descriptor weather_widget, tool_binding weather_widget).
Proof.
  apply (useAgUiTool_distinct_names alert_action weather_widget
           (initial_hook "t1")).
  simpl. discriminate.
Defined.

(** ** Rendering a tool invocation *)

(** X26: a tool invocation is drawn by the mounted tool's [render] when
    it has one, else by its [renderAndWait] when it has one, else
    generically; once the tool is unmounted the same invocation is drawn
    generically. *)
Theorem renderToolInvocationPart_dispatch (t : Tool) (args : Json)
    (h : Hook) :
  renderToolInvocationPart (ui_name t) args (useAgUiTool_mount t h) =
    match tool_render t, tool_renderAndWait t with
    | Some r, _ => RenderView r args
    | None, Some r => RenderAndWaitView r args
    | None, None => GenericView (ui_name t) args
    end /\
  renderToolInvocationPart (ui_name t) args
    (useAgUiTool_unmount t (useAgUiTool_mount t h)) =
    GenericView (ui_name t) args.
Proof.
  split.
  - unfold renderToolInvocationPart. rewrite getTool_mount. simpl.
    destruct (tool_render t), (tool_renderAndWait t); reflexivity.
  - unfold renderToolInvocationPart, getTool. simpl.
    rewrite lookup_delete_eq. reflexivity.
Qed.

(** ** Chat history *)

Lemma fold_left_push {A B : Type} (f : A -> B) (l : list A) (acc : list B) :
  fold_left (fun acc x => acc ++ [f x]) l acc = acc ++ (f <$> l).
Proof.
  revert acc. induction l as [|x l IH]; intros acc; simpl.
  - rewrite app_nil_r. reflexivity.
  - rewrite IH, <- app_assoc. reflexivity.
Qed.

Lemma page_messages_getChatHistory response :
  page_messages (getChatHistory response) = toMastraMessage <$> response.
Proof.
  unfold getChatHistory. simpl.
  apply (fold_left_push toMastraMessage response []).
Qed.

Lemma content_or_empty_default c : content_or_empty c = default "" c.
Proof.
  destruct c as [s|]; simpl; [|reflexivity].
  destruct (String.eqb s "") eqn:E; [|reflexivity].
  apply String.eqb_eq in E. congruence.
Qed.

(** X27: [getChatHistory] converts the received messages one for one and
    in place: the page is as long as the response, and the message at
    each position keeps its id and its raw content, has exactly one part,
    a text part holding the content (empty when there is none), is a
    system message exactly when it was a developer, tool or system
    message, and is dated 1678886400000 exactly when the response gives
    no usable timestamp. *)
Theorem getChatHistory_converts_in_place (response : list AgUiMessage) :
  length (page_messages (getChatHistory response)) = length response /\
  forall (i : nat) (m : AgUiMessage),
    response !! i = Some m ->
    exists mm,
      page_messages (getChatHistory response) !! i = Some mm /\
      mastra_id mm = msg_id m /\
      mastra_content mm = msg_content m /\
      mastra_parts mm = [TextPart (default "" (msg_content m))] /\
      (mastra_role mm = system <->
       msg_role m = role_developer \/ msg_role m = role_tool \/
       msg_role m = role_system) /\
      (mastra_role mm = user <-> msg_role m = role_user) /\
      (mastra_role mm = assistant <-> msg_role m = role_assistant) /\
      (mastra_createdAt mm = DateOfMillis 1678886400000 <->
       truthy (msg_timestamp m) = false) /\
      (truthy (msg_timestamp m) = true ->
       mastra_createdAt mm = DateOf (msg_timestamp m)).
Proof.
  rewrite page_messages_getChatHistory. split; [apply length_fmap|].
  intros i m Hi. exists (toMastraMessage m).
  rewrite list_lookup_fmap, Hi. simpl.
  split; [reflexivity|]. split; [reflexivity|]. split; [reflexivity|].
  split; [rewrite content_or_empty_default; reflexivity|].
  split; [|split; [|split; [|split]]].
  - destruct (msg_role m); split; intros H; try discriminate; auto;
      destruct H as [H|[H|H]]; discriminate.
  - destruct (msg_role m); split; intros H; try discriminate; reflexivity.
  - destruct (msg_role m); split; intros H; try discriminate; reflexivity.
  - destruct (truthy (msg_timestamp m)); split; intros H;
      try discriminate; reflexivity.
  - intros Ht. rewrite Ht. reflexivity.
Qed.

Lemma selectMessages_cons {M : Type} (p : MessagePage M) ps :
  selectMessages (p :: ps) = page_messages p ++ selectMessages ps.
Proof. reflexivity. Qed.

Lemma selectMessages_getChatHistory (responses : list (list AgUiMessage)) :
  selectMessages (getChatHistory <$> responses) =
    toMastraMessage <$> concat responses.
Proof.
  induction responses as [|r rs IH]; [reflexivity|].
  rewrite fmap_cons, selectMessages_cons, IH, page_messages_getChatHistory.
  change (concat (r :: rs)) with (r ++ concat rs).
  rewrite fmap_app. reflexivity.
Qed.

(** X28: the history the hook sees is the pages' messages laid end to
    end: the ids appear in the order the server sent them, page after
    page, and a newly fetched page adds its messages after all those
    already there. *)
Theorem selectMessages_of_history (responses : list (list AgUiMessage))
    (response : list AgUiMessage) :
  mastra_id <$> selectMessages (getChatHistory <$> responses) =
    msg_id <$> concat responses /\
  selectMessages ((getChatHistory <$> responses) ++ [getChatHistory response])
    = selectMessages (getChatHistory <$> responses) ++
      page_messages (getChatHistory response).
Proof.
  split.
  - rewrite selectMessages_getChatHistory, <- list_fmap_compose.
    reflexivity.
  - unfold selectMessages. rewrite flat_map_app. simpl.
    rewrite app_nil_r. reflexivity.
Qed.
